(** * codestat: a shallow embedding of [bin.js] and its properties

    The program walks a directory tree, counts the lines and sizes of the
    files whose extension is in a fixed allow-list, and prints a report.

    Conventions of the embedding.
    - JavaScript strings are [string]s: sequences of code units below 256.
    - JavaScript numbers that hold counts and sizes are [Z]; every number
      the program computes is an integer far below 2^53, where the
      floating-point operations [+] and [/ 1024] are exact.
    - The file system is a tree of directory entries; every entry carries
      the answer that [fs.promises] gives when the program asks for it.
    - Closure variables and the two output streams are threaded through
      the code as an explicit store; a rejected promise is an exceptional
      outcome carrying [error.message]. *)

From Stdlib Require Import ZArith List String Ascii Bool Lia.
From Stdlib Require Import Sorted Permutation DecimalString.
Import ListNotations.

Local Open Scope string_scope.
Local Open Scope list_scope.
Local Open Scope Z_scope.

(** ** JavaScript string built-ins used by the program *)

Module Js.

Definition chars (s : string) : list ascii := list_ascii_of_string s.
Definition str (l : list ascii) : string := string_of_list_ascii l.

(** [String.prototype.toLowerCase] on one code unit below 256:
    A-Z and the Latin-1 capitals U+00C0..U+00DE (except the
    multiplication sign U+00D7) move up by 32. *)
Definition lowerChar (c : ascii) : ascii :=
  let n := N_of_ascii c in
  if ((65 <=? n) && (n <=? 90) ||
      (192 <=? n) && (n <=? 222) && negb (n =? 215))%N
  then ascii_of_N (n + 32) else c.

Definition toLowerCase (s : string) : string := str (map lowerChar (chars s)).

(** [s.slice(1)] *)
Definition slice1 (s : string) : string :=
  match s with
  | EmptyString => EmptyString
  | String _ s' => s'
  end.

(** [l.slice(from, to)] on a sequence, for [0 <= from], [0 <= to]. *)
Definition slice {A} (from to : Z) (l : list A) : list A :=
  skipn (Z.to_nat from) (firstn (Z.to_nat to) l).

(** [s.split(sep)] for a one-character separator: the segments between
    the occurrences of [sep]; never empty. *)
Fixpoint splitOn (sep : ascii) (l : list ascii) : list (list ascii) :=
  match l with
  | [] => [[]]
  | c :: l' =>
      if Ascii.eqb c sep then [] :: splitOn sep l'
      else match splitOn sep l' with
           | seg :: segs => (c :: seg) :: segs
           | [] => [[c]]
           end
  end.

Definition newline : ascii := ascii_of_N 10.

(** [fileContent.split("\n")] *)
Definition split_newline (s : string) : list string :=
  map str (splitOn newline (chars s)).

(** [`${n}`] for a non-negative integer. *)
Definition decimal (n : Z) : string :=
  NilZero.string_of_uint (N.to_uint (Z.to_N n)).

(** [x.toFixed(2)] for the non-negative rational [x = num / den]:
    the integer [n] with [n / 100] nearest to [x] (the larger one on
    a tie), printed with a point before its last two digits. *)
Definition toFixed2 (num den : Z) : string :=
  let n := (200 * num + den) / (2 * den) in
  let frac := n mod 100 in
  (decimal (n / 100) ++ "." ++
   decimal (frac / 10) ++ decimal (frac mod 10))%string.

End Js.

(** ** Node's [path] module (POSIX flavour) *)

Module Path.

Definition slash : ascii := "/"%char.
Definition dot : ascii := "."%char.

Definition list_eqb (a b : list ascii) : bool :=
  String.eqb (Js.str a) (Js.str b).

(** One segment of [normalizeString]; [stack] holds the segments kept
    so far, the most recent first. *)
Definition normalizeStep (allowAboveRoot : bool)
    (stack : list (list ascii)) (seg : list ascii) : list (list ascii) :=
  if list_eqb seg [] || list_eqb seg [dot] then stack
  else if list_eqb seg [dot; dot] then
    match stack with
    | top :: rest =>
        if list_eqb top [dot; dot]
        then (if allowAboveRoot then seg :: stack else stack)
        else rest
    | [] => if allowAboveRoot then [seg] else []
    end
  else seg :: stack.

Fixpoint joinSegments (segs : list (list ascii)) : list ascii :=
  match segs with
  | [] => []
  | [s] => s
  | s :: rest => s ++ slash :: joinSegments rest
  end.

Definition startsWithSlash (p : list ascii) : bool :=
  match p with
  | c :: _ => Ascii.eqb c slash
  | [] => false
  end.

Definition endsWithSlash (p : list ascii) : bool := startsWithSlash (rev p).

(** [path.normalize] *)
Definition normalizeChars (p : list ascii) : list ascii :=
  match p with
  | [] => [dot]
  | _ =>
      let isAbsolute := startsWithSlash p in
      let trailingSeparator := endsWithSlash p in
      let stack :=
        fold_left (normalizeStep (negb isAbsolute)) (Js.splitOn slash p) [] in
      let res := joinSegments (rev stack) in
      match res with
      | [] =>
          if isAbsolute then [slash]
          else if trailingSeparator then [dot; slash] else [dot]
      | _ =>
          (if isAbsolute then [slash] else []) ++ res ++
          (if trailingSeparator then [slash] else [])
      end
  end.

(** [path.join(a, b)]: the non-empty arguments glued with a slash,
    then normalised. *)
Definition joinChars (a b : list ascii) : list ascii :=
  match a, b with
  | [], [] => [dot]
  | [], _ => normalizeChars b
  | _, [] => normalizeChars a
  | _, _ => normalizeChars (a ++ slash :: b)
  end.

Definition join (a b : string) : string :=
  Js.str (joinChars (Js.chars a) (Js.chars b)).

(** The loop shape shared by [basename] and [extname]:
    [for (i = path.length - 1; i >= 0; --i)] over [path.charCodeAt(i)],
    the body answering [true] for [break].  [revpath] is the part of
    the path not yet seen, last character first. *)
Fixpoint scanBack {S : Type} (body : Z -> ascii -> S -> S * bool)
    (revpath : list ascii) (s : S) : S :=
  match revpath with
  | [] => s
  | c :: rest =>
      let '(s', stop) := body (Z.of_nat (List.length rest)) c s in
      if stop then s' else scanBack body rest s'
  end.

Record BaseState := mkBase
  { b_start : Z; b_end : Z; b_matchedSlash : bool }.

Definition basenameBody (i : Z) (c : ascii) (s : BaseState)
    : BaseState * bool :=
  if Ascii.eqb c slash then
    if negb (b_matchedSlash s)
    then (mkBase (i + 1) (b_end s) (b_matchedSlash s), true)
    else (s, false)
  else if b_end s =? -1 then (mkBase (b_start s) (i + 1) false, false)
  else (s, false).

(** [path.basename(p)] *)
Definition basenameChars (p : list ascii) : list ascii :=
  let s := scanBack basenameBody (rev p) (mkBase 0 (-1) true) in
  if b_end s =? -1 then [] else Js.slice (b_start s) (b_end s) p.

Definition basename (p : string) : string :=
  Js.str (basenameChars (Js.chars p)).

Record ExtState := mkExt
  { startDot : Z; startPart : Z; e_end : Z;
    matchedSlash : bool; preDotState : Z }.

Definition extnameBody (i : Z) (c : ascii) (s : ExtState)
    : ExtState * bool :=
  if Ascii.eqb c slash then
    if negb (matchedSlash s)
    then (mkExt (startDot s) (i + 1) (e_end s)
                (matchedSlash s) (preDotState s), true)
    else (s, false)
  else
    let s1 :=
      if e_end s =? -1
      then mkExt (startDot s) (startPart s) (i + 1) false (preDotState s)
      else s in
    if Ascii.eqb c dot then
      if startDot s1 =? -1
      then (mkExt i (startPart s1) (e_end s1)
                  (matchedSlash s1) (preDotState s1), false)
      else if negb (preDotState s1 =? 1)
      then (mkExt (startDot s1) (startPart s1) (e_end s1)
                  (matchedSlash s1) 1, false)
      else (s1, false)
    else if negb (startDot s1 =? -1)
    then (mkExt (startDot s1) (startPart s1) (e_end s1)
                (matchedSlash s1) (-1), false)
    else (s1, false).

(** [path.extname(p)] *)
Definition extnameChars (p : list ascii) : list ascii :=
  let s := scanBack extnameBody (rev p) (mkExt (-1) 0 (-1) true 0) in
  if (startDot s =? -1) || (e_end s =? -1) || (preDotState s =? 0) ||
     ((preDotState s =? 1) && (startDot s =? e_end s - 1) &&
      (startDot s =? startPart s + 1))
  then []
  else Js.slice (startDot s) (e_end s) p.

Definition extname (p : string) : string :=
  Js.str (extnameChars (Js.chars p)).

End Path.

(** ** The allow-list *)

(** [CODE_FILE_EXTENSIONS], in the order of the source. *)
Definition CODE_FILE_EXTENSIONS : list string :=
  [ (* Web & Programming Languages *)
    "js"; "ts"; "jsx"; "tsx"; "py"; "java"; "rb"; "php"; "go"; "rs"; "c";
    "cpp"; "cs"; "swift"; "kt"; "kts";
    "html"; "css"; "scss"; "sass"; "less"; "vue"; "svelte"; "dart"; "r";
    "pl"; "lua"; "scala";
    "erl"; "ex"; "exs"; "hs"; "ml"; "mli"; "nim"; "elm"; "clj"; "cljs";
    "coffee";
    (* Config & Data Files *)
    "json"; "yml"; "yaml"; "xml"; "toml"; "ini"; "conf"; "config";
    "properties";
    "plist"; "env"; "lock"; "csv"; "tsv"; "ndjson"; "avro"; "parquet"; "orc";
    (* Shell Scripts *)
    "sh"; "bash"; "zsh"; "fish"; "bat"; "cmd"; "ps1";
    (* Documentation *)
    "md"; "markdown"; "txt"; "rst"; "asciidoc"; "adoc"; "org"; "creole";
    (* Other Development Files *)
    "sql"; "prisma"; "graphql"; "gql"; "hbs"; "handlebars"; "ejs"; "pug";
    "jade";
    "mustache"; "jinja"; "jinja2"; "njk"; "liquid"; "twig";
    (* Test Files *)
    "spec.js"; "test.js"; "spec.ts"; "test.ts"; "story.js"; "story.ts";
    (* Container & Deployment Files *)
    "dockerfile"; "dockerignore"; "compose.yml"; "compose.yaml"; "k8s.yml";
    "k8s.yaml";
    (* Version Control Files *)
    "gitignore"; "gitattributes"; "editorconfig";
    (* CI/CD Files *)
    "travis.yml"; "circleci.yml"; "github.yml"; "gitlab-ci.yml";
    "jenkinsfile"; "pipeline";
    (* Package Manager Files *)
    "package.json"; "package-lock.json"; "yarn.lock"; "pnpm-lock.yaml";
    "composer.json";
    (* IDE & Workspace Files *)
    "workspace"; "workspace.json"; "code-workspace"; "settings.json";
    (* Binary or Compiled Files (for reference) *)
    "wasm"; "so"; "dll"; "exe"; "bin" ].

(** [set.has(x)] *)
Definition has (set : list string) (x : string) : bool :=
  existsb (String.eqb x) set.

(** ** The file system, as the program observes it *)

(** A settled promise: the value, or the rejection's [message]. *)
Inductive Result (A : Type) : Type :=
| Resolved (value : A)
| Rejected (message : string).
Arguments Resolved {A} value.
Arguments Rejected {A} message.

(** One [fs.Dirent] of a [readdir(..., {withFileTypes: true})] answer,
    together with what the later calls on its path give:
    - [Directory]: [isDirectory()] holds; [readdir] of it;
    - [RegularFile]: [isFile()] holds; [readFile(_, "utf8")] and
      [stat(_).size] of it;
    - [Other]: neither holds (symbolic link, socket, FIFO, device). *)
#[warnings="-register-all"]
Inductive Dirent : Type :=
| Directory (name : string) (readdir : Result (list Dirent))
| RegularFile (name : string) (readFile : Result string) (stat : Result Z)
| Other (name : string).

Definition entryName (entry : Dirent) : string :=
  match entry with
  | Directory name _ => name
  | RegularFile name _ _ => name
  | Other name => name
  end.

(** ** Store and control *)

Record FileLine := mkFileLine { file : string; lines : Z }.

(** The five variables that [analyzeDir] closes over, and the two
    streams of the process; one [console] call is the list of its
    arguments.  A plain object used as a map is the list of its own
    properties in insertion order. *)
Record Store := mkStore
  { totalLines : Z;
    totalFiles : Z;
    totalSize : Z;
    fileLines : list FileLine;
    extensionsCount : list (string * Z);
    stdout : list (list string);
    stderr : list (list string) }.

Inductive Outcome (A : Type) : Type :=
| Return (value : A)
| Throw (message : string).
Arguments Return {A} value.
Arguments Throw {A} message.

(** A computation: what it leaves in the store, and how it ends. *)
Definition M (A : Type) : Type := Store -> Outcome A * Store.

Definition ret {A} (a : A) : M A := fun st => (Return a, st).

Definition bind {A B} (c : M A) (k : A -> M B) : M B :=
  fun st =>
    match c st with
    | (Return a, st') => k a st'
    | (Throw message, st') => (Throw message, st')
    end.

Definition throw {A} (message : string) : M A :=
  fun st => (Throw message, st).

Definition modify (f : Store -> Store) : M unit := fun st => (Return tt, f st).

Definition gets {A} (f : Store -> A) : M A := fun st => (Return (f st), st).

(** [await p] for a promise that has settled as [p]. *)
Definition await {A} (p : Result A) : M A :=
  match p with
  | Resolved v => ret v
  | Rejected message => throw message
  end.

(** [try { body } catch (error) { handler(error.message) }]: what the
    body did to the store before it threw stays done. *)
Definition tryCatch {A} (body : M A) (handler : string -> M A) : M A :=
  fun st =>
    match body st with
    | (Return a, st') => (Return a, st')
    | (Throw message, st') => handler message st'
    end.

Notation "x <- c ;; k" := (bind c (fun x => k))
  (at level 61, c at next level, right associativity).
Notation "c ;; k" := (bind c (fun _ => k))
  (at level 61, right associativity).

Section ForOf.
Context {A : Type} (body : A -> M unit).

(** [for (const x of xs) { body }] *)
Fixpoint forOf (xs : list A) : M unit :=
  match xs with
  | [] => ret tt
  | x :: rest => body x ;; forOf rest
  end.
End ForOf.

(** ** Plain objects as maps, arrays *)

(** [o[key]]: [None] is [undefined]. *)
Fixpoint getProp (o : list (string * Z)) (key : string) : option Z :=
  match o with
  | [] => None
  | (k, v) :: rest => if String.eqb k key then Some v else getProp rest key
  end.

(** [o[key] = v]: an existing property keeps its place, a new one goes
    last. *)
Fixpoint setProp (o : list (string * Z)) (key : string) (v : Z)
    : list (string * Z) :=
  match o with
  | [] => [(key, v)]
  | (k, x) :: rest =>
      if String.eqb k key then (k, v) :: rest else (k, x) :: setProp rest key v
  end.

(** [x || 0] for a number or [undefined]. *)
Definition orZero (x : option Z) : Z :=
  match x with
  | Some n => if n =? 0 then 0 else n
  | None => 0
  end.

(** [Object.entries(o)]: own properties in insertion order.  (Keys that
    are array indices would come first; [allowlist_keys_are_ordinary]
    shows that no key of [extensionsCount] is one.) *)
Definition entries (o : list (string * Z)) : list (string * Z) := o.

(** A canonical array index: a decimal numeral without leading zero. *)
Definition isDigit (c : ascii) : bool :=
  let n := N_of_ascii c in ((48 <=? n) && (n <=? 57))%N.

Definition isArrayIndex (key : string) : bool :=
  match Js.chars key with
  | [] => false
  | [c] => isDigit c
  | c :: rest => isDigit c && negb (Ascii.eqb c "0"%char) && forallb isDigit rest
  end.

Section Sort.
Context {A : Type} (compareFn : A -> A -> Z).

Fixpoint insertSorted (x : A) (sorted : list A) : list A :=
  match sorted with
  | [] => [x]
  | y :: rest =>
      if compareFn x y <=? 0 then x :: sorted else y :: insertSorted x rest
  end.

(** [array.sort(compareFn)].  The sort is stable (ECMAScript 2019,
    every Node the package supports), so for a comparator that orders
    by a key the result is determined; it is computed here by
    insertion from the right. *)
Definition sort (array : list A) : list A :=
  fold_right insertSorted [] array.
End Sort.

(** ** [analyzeFolder] *)

Definition addLines (n : Z) (st : Store) : Store :=
  mkStore (totalLines st + n) (totalFiles st) (totalSize st) (fileLines st)
          (extensionsCount st) (stdout st) (stderr st).

Definition addFile (st : Store) : Store :=
  mkStore (totalLines st) (totalFiles st + 1) (totalSize st) (fileLines st)
          (extensionsCount st) (stdout st) (stderr st).

Definition addSize (n : Z) (st : Store) : Store :=
  mkStore (totalLines st) (totalFiles st) (totalSize st + n) (fileLines st)
          (extensionsCount st) (stdout st) (stderr st).

Definition pushFileLine (r : FileLine) (st : Store) : Store :=
  mkStore (totalLines st) (totalFiles st) (totalSize st) (fileLines st ++ [r])
          (extensionsCount st) (stdout st) (stderr st).

Definition setFileLines (l : list FileLine) (st : Store) : Store :=
  mkStore (totalLines st) (totalFiles st) (totalSize st) l
          (extensionsCount st) (stdout st) (stderr st).

Definition countExtension (ext : string) (st : Store) : Store :=
  mkStore (totalLines st) (totalFiles st) (totalSize st) (fileLines st)
          (setProp (extensionsCount st) ext
                   (orZero (getProp (extensionsCount st) ext) + 1))
          (stdout st) (stderr st).

Definition console_log (args : list string) : M unit :=
  modify (fun st =>
    mkStore (totalLines st) (totalFiles st) (totalSize st) (fileLines st)
            (extensionsCount st) (stdout st ++ [args]) (stderr st)).

(** [console.warn] and [console.error] both write to the error stream. *)
Definition console_warn (args : list string) : M unit :=
  modify (fun st =>
    mkStore (totalLines st) (totalFiles st) (totalSize st) (fileLines st)
            (extensionsCount st) (stdout st) (stderr st ++ [args])).

Definition console_error := console_warn.

(** The extension the program computes for a path:
    [path.extname(fullPath).slice(1).toLowerCase()]. *)
Definition extensionOf (fullPath : string) : string :=
  Js.toLowerCase (Js.slice1 (Path.extname fullPath)).

(** The body of the [try] block for one recognised file. *)
Definition readAndCount (fullPath ext : string)
    (readFile : Result string) (stat : Result Z) : M unit :=
  fileContent <- await readFile ;;
  let lines := Z.of_nat (List.length (Js.split_newline fileContent)) in
  modify (addLines lines) ;;
  modify (pushFileLine (mkFileLine fullPath lines)) ;;
  size <- await stat ;;
  modify (addSize size) ;;
  modify (countExtension ext).

Definition warnUnreadable (fullPath message : string) : M unit :=
  console_warn [("Warning: Could not read file " ++ fullPath)%string; message].

(** The body of the [for] loop of [analyzeDir(directory)] for one entry;
    the recursive call [analyzeDir(fullPath)] is its listing, then the
    loop over the listed entries. *)
Fixpoint analyzeEntry (directory : string) (entry : Dirent) {struct entry}
    : M unit :=
  let fullPath := Path.join directory (entryName entry) in
  match entry with
  | Directory _ readdir =>
      let dirName := Path.basename fullPath in
      if negb (String.eqb dirName "node_modules") &&
         negb (String.eqb dirName ".git")
      then
        match readdir with
        | Resolved entries => forOf (analyzeEntry fullPath) entries
        | Rejected message => throw message
        end
      else ret tt
  | RegularFile _ readFile stat =>
      let ext := extensionOf fullPath in
      if has CODE_FILE_EXTENSIONS ext then
        modify addFile ;;
        tryCatch (readAndCount fullPath ext readFile stat)
                 (warnUnreadable fullPath)
      else ret tt
  | Other _ => ret tt
  end.

(** [analyzeDir(directory)], where [readdir] is what listing
    [directory] gives. *)
Definition analyzeDir (directory : string) (readdir : Result (list Dirent))
    : M unit :=
  entries <- await readdir ;;
  forOf (analyzeEntry directory) entries.

Record ScanResult := mkScanResult
  { r_totalLines : Z;
    r_totalFiles : Z;
    r_totalSize : Z;
    topFiles : list FileLine;
    topExtensions : list (string * Z) }.

Definition byLinesDesc (a b : FileLine) : Z := lines b - lines a.
Definition byCountDesc (a b : string * Z) : Z := snd b - snd a.

(** [array.slice(0, 10)] *)
Definition top10 {A} (array : list A) : list A := firstn 10 array.

Definition initLocals (st : Store) : Store :=
  mkStore 0 0 0 [] [] (stdout st) (stderr st).

Definition analyzeFolder (folderPath : string)
    (readdir : Result (list Dirent)) : M ScanResult :=
  modify initLocals ;;
  analyzeDir folderPath readdir ;;
  sorted <- gets (fun st => sort byLinesDesc (fileLines st)) ;;
  modify (setFileLines sorted) ;;
  let topFiles := top10 sorted in
  counts <- gets extensionsCount ;;
  let topExtensions := top10 (sort byCountDesc (entries counts)) in
  st <- gets (fun st => st) ;;
  ret (mkScanResult (totalLines st) (totalFiles st) (totalSize st)
                    topFiles topExtensions).

(** ** Reporting *)

Definition humanReadableSize (size : Z) : string :=
  if size <? 1024 then (Js.decimal size ++ " B")%string
  else if size <? 1024 * 1024 then (Js.toFixed2 size 1024 ++ " KB")%string
  else (Js.toFixed2 size (1024 * 1024) ++ " MB")%string.

Definition nl : string := String Js.newline EmptyString.

Definition printReport (r : ScanResult) : M unit :=
  console_log [nl] ;;
  console_log ["----------------------------"] ;;
  console_log ["| Project Analysis Summary |"] ;;
  console_log ["----------------------------"] ;;
  console_log [("* Total lines of code: " ++ Js.decimal (r_totalLines r))%string] ;;
  console_log [("* Total number of files: " ++ Js.decimal (r_totalFiles r))%string] ;;
  console_log [("* Total size of files: " ++ humanReadableSize (r_totalSize r))%string] ;;
  console_log [nl] ;;
  console_log ["[i] Top 10 files with most lines:"] ;;
  forOf (fun fl =>
           console_log [("  " ++ Js.decimal (lines fl) ++ " lines - " ++ file fl)%string])
        (topFiles r) ;;
  console_log [nl] ;;
  console_log ["[i] Top 10 most popular file formats:"] ;;
  forOf (fun e =>
           console_log [("  " ++ Js.decimal (snd e) ++ " files - ." ++ fst e)%string])
        (topExtensions r).

(** What the process leaves behind. *)
Record Process := mkProcess
  { p_stdout : list (list string);
    p_stderr : list (list string);
    exitCode : Z }.

Definition emptyStore : Store := mkStore 0 0 0 [] [] [] [].

(** The main function: [argv2] is [process.argv[2]] ([None] when
    absent), [readdir] what listing that path gives.  The computation
    answers the exit code. *)
Definition mainBody (folderPath : string) (readdir : Result (list Dirent))
    : M Z :=
  tryCatch
    (r <- analyzeFolder folderPath readdir ;;
     printReport r ;;
     ret 0)
    (fun message =>
       console_error ["Error:"; message] ;;
       ret 1).

Definition main (argv2 : option string) (readdir : Result (list Dirent))
    : Process :=
  match argv2 with
  | None | Some EmptyString =>
      mkProcess [] [["Usage: codestat <directory>"]] 1
  | Some folderPath =>
      match mainBody folderPath readdir emptyStore with
      | (Return code, st) => mkProcess (stdout st) (stderr st) code
      | (Throw _, st) => mkProcess (stdout st) (stderr st) 1
      end
  end.

(** ** Vocabulary of the statements *)

Module Names.

Definition notSlash (c : ascii) : bool := negb (Ascii.eqb c Path.slash).
Definition notDot (c : ascii) : bool := negb (Ascii.eqb c Path.dot).

(** A name that [readdir] can answer: one path component, neither
    empty nor [.] nor [..]. *)
Definition validChars (n : list ascii) : bool :=
  match n with
  | [] => false
  | _ => forallb notSlash n &&
         negb (Path.list_eqb n [Path.dot]) &&
         negb (Path.list_eqb n [Path.dot; Path.dot])
  end.

Definition valid (name : string) : bool := validChars (Js.chars name).

(** The text before and after the last dot, when there is a dot. *)
Fixpoint splitLastDot (n : list ascii) : option (list ascii * list ascii) :=
  match n with
  | [] => None
  | c :: rest =>
      match splitLastDot rest with
      | Some (before, after) => Some (c :: before, after)
      | None => if Ascii.eqb c Path.dot then Some ([], rest) else None
      end
  end.

(** What [path.extname] gives for a valid name: from the last dot on,
    unless that dot opens the name. *)
Definition extnameOfName (n : list ascii) : list ascii :=
  match splitLastDot n with
  | Some (_ :: _, after) => Path.dot :: after
  | _ => []
  end.

(** The shape of a joined path: the valid name, after nothing or after
    a prefix that ends in a slash. *)
Definition dirPrefix (P : list ascii) : Prop :=
  P = [] \/ exists P', P = P' ++ [Path.slash].

(** The loop state of [extname] with [preDotState] replaced. *)
Definition setPre (s : Path.ExtState) (v : Z) : Path.ExtState :=
  Path.mkExt (Path.startDot s) (Path.startPart s) (Path.e_end s)
             (Path.matchedSlash s) v.

Definition preOf (c : ascii) : Z := if Ascii.eqb c Path.dot then 1 else -1.

End Names.

(** The extension of a file name, read off the name alone: the
    lower-cased text after the last dot, unless that dot opens the name. *)
Definition nameExtension (name : string) : string :=
  Js.toLowerCase (Js.slice1 (Js.str (Names.extnameOfName (Js.chars name)))).

Definition ignoredName (name : string) : bool :=
  String.eqb name "node_modules" || String.eqb name ".git".

(** Every name in the tree is one that [readdir] can answer. *)
Fixpoint wellFormed (entry : Dirent) : bool :=
  Names.valid (entryName entry) &&
  match entry with
  | Directory _ (Resolved entries) => forallb wellFormed entries
  | _ => true
  end.

Definition wellFormedListing (readdir : Result (list Dirent)) : bool :=
  match readdir with
  | Resolved entries => forallb wellFormed entries
  | Rejected _ => true
  end.

(** One recognised file met by the traversal. *)
Record Visit := mkVisit
  { v_path : string;
    v_ext : string;
    v_readFile : Result string;
    v_stat : Result Z }.

(** What the program does for a recognised file. *)
Definition visitFile (v : Visit) : M unit :=
  modify addFile ;;
  tryCatch (readAndCount (v_path v) (v_ext v) (v_readFile v) (v_stat v))
           (warnUnreadable (v_path v)).

Definition runVisits (visits : list Visit) (st : Store) : Store :=
  fold_left (fun st v => snd (visitFile v st)) visits st.

(** The number of segments of [content.split("\n")]. *)
Definition lineCount (content : string) : Z :=
  Z.of_nat (List.length (Js.split_newline content)).

(** The store after one visit, case by case. *)
Definition afterVisit (v : Visit) (st : Store) : Store :=
  let counted := addFile st in
  match v_readFile v with
  | Rejected message =>
      snd (warnUnreadable (v_path v) message counted)
  | Resolved content =>
      let pushed :=
        pushFileLine (mkFileLine (v_path v) (lineCount content))
                     (addLines (lineCount content) counted) in
      match v_stat v with
      | Rejected message => snd (warnUnreadable (v_path v) message pushed)
      | Resolved size => countExtension (v_ext v) (addSize size pushed)
      end
  end.

(** The records pushed for a sequence of visits: one for each file whose
    content could be read. *)
Definition recordOf (v : Visit) : list FileLine :=
  match v_readFile v with
  | Resolved content => [mkFileLine (v_path v) (lineCount content)]
  | Rejected _ => []
  end.

Definition recordsOf (visits : list Visit) : list FileLine :=
  flat_map recordOf visits.

(** Content and size were both obtained. *)
Definition complete (v : Visit) : bool :=
  match v_readFile v, v_stat v with
  | Resolved _, Resolved _ => true
  | _, _ => false
  end.

Definition contentRead (v : Visit) : bool :=
  match v_readFile v with
  | Resolved _ => true
  | Rejected _ => false
  end.

Definition sizeOf (v : Visit) : Z :=
  match v_readFile v, v_stat v with
  | Resolved _, Resolved size => size
  | _, _ => 0
  end.

Definition warningOf (v : Visit) : list (list string) :=
  match v_readFile v, v_stat v with
  | Rejected message, _ | Resolved _, Rejected message =>
      [[("Warning: Could not read file " ++ v_path v)%string; message]]
  | Resolved _, Resolved _ => []
  end.

Definition sumZ (l : list Z) : Z := fold_right Z.add 0 l.

(** [o[key] = (o[key] || 0) + 1] *)
Definition countKey (o : list (string * Z)) (key : string)
    : list (string * Z) :=
  setProp o key (orZero (getProp o key) + 1).

(** The distinct members of a sequence, in the order of their first
    occurrence. *)
Definition noteFirst (seen : list string) (x : string) : list string :=
  if has seen x then seen else seen ++ [x].

Definition distinct (l : list string) : list string :=
  fold_left noteFirst l [].

(** How often [x] occurs in [l]. *)
Definition occurrences (x : string) (l : list string) : Z :=
  Z.of_nat (List.length (filter (String.eqb x) l)).

(** The extensions counted by a sequence of visits. *)
Definition countedExtensions (visits : list Visit) : list string :=
  map v_ext (filter complete visits).

(** Ordered from the largest key to the smallest. *)
Definition descendingBy {A} (key : A -> Z) (l : list A) : Prop :=
  StronglySorted (fun a b => key b <= key a) l.

(** The members of [selected] that share a key stand in the order in
    which [original] has them, and are the first of them. *)
Definition keepsEncounterOrder {A} (key : A -> Z) (selected original : list A)
    : Prop :=
  forall k, exists rest,
    filter (fun x => key x =? k) original =
    filter (fun x => key x =? k) selected ++ rest.

(** The tally of a sequence of extensions: each distinct one, in the
    order of first occurrence, with the number of its occurrences. *)
Definition tally (exts : list string) : list (string * Z) :=
  map (fun e => (e, occurrences e exts)) (distinct exts).

(** How many newline characters a text holds. *)
Definition countNewlines (content : string) : Z :=
  Z.of_nat (List.length (filter (Ascii.eqb Js.newline) (Js.chars content))).

(** The extension in the words of the specification: the lower-cased
    text after the last dot of the name, empty when there is no dot. *)
Definition specExtension (name : string) : string :=
  match Names.splitLastDot (Js.chars name) with
  | Some (_, after) => Js.toLowerCase (Js.str after)
  | None => EmptyString
  end.

Definition containsDot (s : string) : bool :=
  existsb (Ascii.eqb Path.dot) (Js.chars s).

(** The traversal reaches a directory whose listing fails with
    [message]: it is among the entries, or below a listed directory
    that is not named [node_modules] or [.git]. *)
Inductive ReachesUnlistable (message : string) : list Dirent -> Prop :=
| unlistable_here name entries :
    In (Directory name (Rejected message)) entries ->
    ignoredName name = false ->
    ReachesUnlistable message entries
| unlistable_below name below entries :
    In (Directory name (Resolved below)) entries ->
    ignoredName name = false ->
    ReachesUnlistable message below ->
    ReachesUnlistable message entries.

(** The listing of the root fails, or the traversal below it reaches a
    directory that cannot be listed. *)
Definition ScanFails (message : string) (readdir : Result (list Dirent))
    : Prop :=
  match readdir with
  | Rejected m => m = message
  | Resolved entries => ReachesUnlistable message entries
  end.

(** The traversal meets the recognised file [v]: it is a regular file
    among the entries, or it is met below a listed directory that is not
    named [node_modules] or [.git]. *)
Inductive Meets : string -> list Dirent -> Visit -> Prop :=
| meets_here directory entries name readFile stat :
    In (RegularFile name readFile stat) entries ->
    has CODE_FILE_EXTENSIONS (nameExtension name) = true ->
    Meets directory entries
          (mkVisit (Path.join directory name) (nameExtension name)
                   readFile stat)
| meets_below directory entries name below v :
    In (Directory name (Resolved below)) entries ->
    ignoredName name = false ->
    Meets (Path.join directory name) below v ->
    Meets directory entries v.

(** A hundred [.js] files: [file0.js] ... [file99.js]. *)
Definition hundredJsFiles : list Dirent :=
  map (fun i =>
         RegularFile ("file" ++ Js.decimal (Z.of_nat i) ++ ".js")%string
                     (Resolved "x") (Resolved 1))
      (seq 0 100).

(** The character of a decimal digit. *)
Definition digitChar (d : Z) : ascii := ascii_of_N (48 + Z.to_N d).

(** [n] hundredths is the value nearest to [num / den], the larger one
    on a tie. *)
Definition nearestHundredths (n num den : Z) : Prop :=
  100 * num * 2 - den < 2 * den * n <= 100 * num * 2 + den.

Section WalkAll.
Context (walkOne : Dirent -> list Visit * option string).

Fixpoint walkAll (entries : list Dirent) : list Visit * option string :=
  match entries with
  | [] => ([], None)
  | entry :: rest =>
      match walkOne entry with
      | (visits, Some message) => (visits, Some message)
      | (visits, None) =>
          let '(visits', failure) := walkAll rest in
          (visits ++ visits', failure)
      end
  end.
End WalkAll.

(** The traversal, told by names: the recognised files in the order in
    which they are met, up to the first directory that cannot be listed,
    and the message of that failure.  Directories named [node_modules]
    or [.git] are not entered; every other directory is. *)
Fixpoint walk (directory : string) (entry : Dirent) {struct entry}
    : list Visit * option string :=
  let fullPath := Path.join directory (entryName entry) in
  match entry with
  | Directory name readdir =>
      if ignoredName name then ([], None)
      else match readdir with
           | Resolved entries => walkAll (walk fullPath) entries
           | Rejected message => ([], Some message)
           end
  | RegularFile name readFile stat =>
      if has CODE_FILE_EXTENSIONS (nameExtension name)
      then ([mkVisit fullPath (nameExtension name) readFile stat], None)
      else ([], None)
  | Other _ => ([], None)
  end.

Definition walkDir (directory : string) (readdir : Result (list Dirent))
    : list Visit * option string :=
  match readdir with
  | Resolved entries => walkAll (walk directory) entries
  | Rejected message => ([], Some message)
  end.

Definition outcomeOf (failure : option string) : Outcome unit :=
  match failure with
  | None => Return tt
  | Some message => Throw message
  end.

(** A tree with one recognised file whose content cannot be read. *)
Definition unreadableTree : Result (list Dirent) :=
  Resolved [RegularFile "main.js" (Rejected "EACCES") (Resolved 10)].


(** The names that every plain object inherits from [Object.prototype]:
    [o[key] || 0] is not a count for these. *)
Definition objectPrototypeNames : list string :=
  [ "constructor"; "__defineGetter__"; "__defineSetter__"; "hasOwnProperty";
    "__lookupGetter__"; "__lookupSetter__"; "isPrototypeOf";
    "propertyIsEnumerable"; "toString"; "valueOf"; "__proto__";
    "toLocaleString" ].

(** The result that [analyzeFolder] answers after a sequence of
    visits. *)
Definition resultOf (visits : list Visit) : ScanResult :=
  mkScanResult
    (sumZ (map lines (recordsOf visits)))
    (Z.of_nat (List.length visits))
    (sumZ (map sizeOf visits))
    (top10 (sort byLinesDesc (recordsOf visits)))
    (top10 (sort byCountDesc (tally (countedExtensions visits)))).

(** The [console.log] calls of the report, in order. *)
Definition reportLines (r : ScanResult) : list (list string) :=
  [ [nl];
    ["----------------------------"];
    ["| Project Analysis Summary |"];
    ["----------------------------"];
    [("* Total lines of code: " ++ Js.decimal (r_totalLines r))%string];
    [("* Total number of files: " ++ Js.decimal (r_totalFiles r))%string];
    [("* Total size of files: " ++ humanReadableSize (r_totalSize r))%string];
    [nl];
    ["[i] Top 10 files with most lines:"] ] ++
  map (fun fl =>
         [("  " ++ Js.decimal (lines fl) ++ " lines - " ++ file fl)%string])
      (topFiles r) ++
  [ [nl]; ["[i] Top 10 most popular file formats:"] ] ++
  map (fun e =>
         [("  " ++ Js.decimal (snd e) ++ " files - ." ++ fst e)%string])
      (topExtensions r).

Definition appendStdout (calls : list (list string)) (st : Store) : Store :=
  mkStore (totalLines st) (totalFiles st) (totalSize st) (fileLines st)
          (extensionsCount st) (stdout st ++ calls) (stderr st).

(** The argument names a directory: it is present and not empty. *)
Definition argumentGiven (argv2 : option string) : bool :=
  match argv2 with
  | None | Some EmptyString => false
  | Some _ => true
  end.

(** Every size that [stat] answers for the files visited is at least 0. *)
Definition sizesNonNegative (visits : list Visit) : bool :=
  forallb (fun v => 0 <=? sizeOf v) visits.

(** The count that the object of counters holds for [key]: 0 when it
    has no such property. *)
Definition countOf (o : list (string * Z)) (key : string) : Z :=
  orZero (getProp o key).

(** A text of [extra + 1] lines: [x], a line feed, [x], ... *)
Fixpoint textOfLines (extra : nat) : string :=
  match extra with
  | O => "x"
  | S k => String "x"%char (String "010"%char (textOfLines k))
  end.

(** A directory with more than ten readable files, files of equal
    length, more than ten extensions, an extension written in capitals,
    a file whose content cannot be read, a file whose size cannot be
    had, a file that is not recognised, a symbolic link, an ignored
    directory and a directory that is entered. *)
Definition busyTree : Result (list Dirent) :=
  Resolved
    [ RegularFile "a.js" (Resolved (textOfLines 2)) (Resolved 30);
      RegularFile "b.ts" (Resolved (textOfLines 0)) (Resolved 10);
      RegularFile "c.py" (Resolved (textOfLines 4)) (Resolved 50);
      RegularFile "d.rb" (Resolved (textOfLines 2)) (Resolved 31);
      RegularFile "e.go" (Resolved (textOfLines 1)) (Resolved 20);
      RegularFile "f.rs" (Resolved (textOfLines 2)) (Resolved 32);
      RegularFile "g.c" (Resolved (textOfLines 0)) (Resolved 11);
      RegularFile "h.md" (Resolved (textOfLines 3)) (Resolved 40);
      RegularFile "i.css" (Resolved (textOfLines 1)) (Resolved 21);
      RegularFile "j.html" (Resolved (textOfLines 0)) (Resolved 12);
      RegularFile "k.json" (Resolved (textOfLines 1)) (Resolved 22);
      RegularFile "l.yml" (Resolved (textOfLines 0)) (Resolved 13);
      RegularFile "m.js" (Resolved (textOfLines 2)) (Resolved 33);
      RegularFile "n.JS" (Resolved (textOfLines 1)) (Resolved 23);
      RegularFile "o.md" (Resolved (textOfLines 0)) (Resolved 14);
      RegularFile "locked.ts" (Rejected "EACCES") (Resolved 7);
      RegularFile "gone.py" (Resolved (textOfLines 1)) (Rejected "ENOENT");
      RegularFile "notes.pdf" (Resolved (textOfLines 8)) (Resolved 900);
      Other "link.js";
      Directory "node_modules"
        (Resolved
           [RegularFile "dep.js" (Resolved (textOfLines 9)) (Resolved 99)]);
      Directory "src"
        (Resolved
           [RegularFile "deep.sh" (Resolved (textOfLines 5)) (Resolved 60)]) ].

(** What [analyzeFolder("proj")] answers on [busyTree]. *)
Definition busyResult : ScanResult :=
  {|
    r_totalLines := 42;
    r_totalFiles := 18;
    r_totalSize := 422;
    topFiles :=
      [{| file := "proj/src/deep.sh"; lines := 6 |};
       {| file := "proj/c.py"; lines := 5 |};
       {| file := "proj/h.md"; lines := 4 |};
       {| file := "proj/a.js"; lines := 3 |};
       {| file := "proj/d.rb"; lines := 3 |};
       {| file := "proj/f.rs"; lines := 3 |};
       {| file := "proj/m.js"; lines := 3 |};
       {| file := "proj/e.go"; lines := 2 |};
       {| file := "proj/i.css"; lines := 2 |};
       {| file := "proj/k.json"; lines := 2 |}];
    topExtensions :=
      [("js", 3); ("md", 2); ("ts", 1); ("py", 1); (
       "rb", 1); ("go", 1); ("rs", 1); ("c", 1); (
       "css", 1); ("html", 1)]
  |}.

(** The store in which [analyzeFolder("proj")] ends on [busyTree]. *)
Definition busyStore : Store :=
  {|
    totalLines := 42;
    totalFiles := 18;
    totalSize := 422;
    fileLines :=
      [{| file := "proj/src/deep.sh"; lines := 6 |};
       {| file := "proj/c.py"; lines := 5 |};
       {| file := "proj/h.md"; lines := 4 |};
       {| file := "proj/a.js"; lines := 3 |};
       {| file := "proj/d.rb"; lines := 3 |};
       {| file := "proj/f.rs"; lines := 3 |};
       {| file := "proj/m.js"; lines := 3 |};
       {| file := "proj/e.go"; lines := 2 |};
       {| file := "proj/i.css"; lines := 2 |};
       {| file := "proj/k.json"; lines := 2 |};
       {| file := "proj/n.JS"; lines := 2 |};
       {| file := "proj/gone.py"; lines := 2 |};
       {| file := "proj/b.ts"; lines := 1 |};
       {| file := "proj/g.c"; lines := 1 |};
       {| file := "proj/j.html"; lines := 1 |};
       {| file := "proj/l.yml"; lines := 1 |};
       {| file := "proj/o.md"; lines := 1 |}];
    extensionsCount :=
      [("js", 3); ("ts", 1); ("py", 1); ("rb", 1); (
       "go", 1); ("rs", 1); ("c", 1); ("md", 2); (
       "css", 1); ("html", 1); ("json", 1); (
       "yml", 1); ("sh", 1)];
    stdout := [];
    stderr :=
      [["Warning: Could not read file proj/locked.ts"; "EACCES"];
       ["Warning: Could not read file proj/gone.py"; "ENOENT"]]
  |}.

(** The store in which [analyzeDir("proj")] ends on [busyTree], from
    fresh counters. *)
Definition busyScanned : Store :=
  {|
    totalLines := 42;
    totalFiles := 18;
    totalSize := 422;
    fileLines :=
      [{| file := "proj/a.js"; lines := 3 |};
       {| file := "proj/b.ts"; lines := 1 |};
       {| file := "proj/c.py"; lines := 5 |};
       {| file := "proj/d.rb"; lines := 3 |};
       {| file := "proj/e.go"; lines := 2 |};
       {| file := "proj/f.rs"; lines := 3 |};
       {| file := "proj/g.c"; lines := 1 |};
       {| file := "proj/h.md"; lines := 4 |};
       {| file := "proj/i.css"; lines := 2 |};
       {| file := "proj/j.html"; lines := 1 |};
       {| file := "proj/k.json"; lines := 2 |};
       {| file := "proj/l.yml"; lines := 1 |};
       {| file := "proj/m.js"; lines := 3 |};
       {| file := "proj/n.JS"; lines := 2 |};
       {| file := "proj/o.md"; lines := 1 |};
       {| file := "proj/gone.py"; lines := 2 |};
       {| file := "proj/src/deep.sh"; lines := 6 |}];
    extensionsCount :=
      [("js", 3); ("ts", 1); ("py", 1); ("rb", 1); (
       "go", 1); ("rs", 1); ("c", 1); ("md", 2); (
       "css", 1); ("html", 1); ("json", 1); (
       "yml", 1); ("sh", 1)];
    stdout := [];
    stderr :=
      [["Warning: Could not read file proj/locked.ts"; "EACCES"];
       ["Warning: Could not read file proj/gone.py"; "ENOENT"]]
  |}.

(** A directory that cannot be listed, followed by one that can. *)
Definition stoppedTree : list Dirent :=
  [ Directory "a" (Rejected "EACCES");
    Directory "b" (Resolved [RegularFile "x.js" (Resolved "x") (Resolved 1)]) ].

(** Induction over a tree of directory entries. *)
Section DirentInduction.
Variable P : Dirent -> Prop.
Hypothesis P_listed :
  forall name entries, Forall P entries -> P (Directory name (Resolved entries)).
Hypothesis P_unlisted :
  forall name message, P (Directory name (Rejected message)).
Hypothesis P_file :
  forall name readFile stat, P (RegularFile name readFile stat).
Hypothesis P_other : forall name, P (Other name).

Fixpoint Dirent_tree_ind (entry : Dirent) : P entry :=
  match entry with
  | Directory name (Resolved entries) =>
      P_listed name entries
        ((fix all (l : list Dirent) : Forall P l :=
            match l with
            | [] => Forall_nil P
            | e :: rest => Forall_cons e (Dirent_tree_ind e) (all rest)
            end) entries)
  | Directory name (Rejected message) => P_unlisted name message
  | RegularFile name readFile stat => P_file name readFile stat
  | Other name => P_other name
  end.
End DirentInduction.

(** ** Facts about [path] *)

Module PathFacts.
Import Path Names.

Lemma chars_str (l : list ascii) : Js.chars (Js.str l) = l.
Proof. apply list_ascii_of_string_of_list_ascii. Qed.

Lemma str_chars (s : string) : Js.str (Js.chars s) = s.
Proof. apply string_of_list_ascii_of_string. Qed.

Lemma list_eqb_spec (a b : list ascii) : reflect (a = b) (list_eqb a b).
Proof.
  unfold list_eqb. destruct (String.eqb_spec (Js.str a) (Js.str b)) as [E|E].
  - left. rewrite <- (chars_str a), <- (chars_str b). now rewrite E.
  - right. intros ->. now apply E.
Qed.

Lemma splitOn_nonempty sep l : Js.splitOn sep l <> [].
Proof.
  destruct l as [|c l]; simpl; [discriminate|].
  destruct (Ascii.eqb c sep); [discriminate|].
  destruct (Js.splitOn sep l); discriminate.
Qed.

Lemma splitOn_app sep a b :
  Js.splitOn sep (a ++ sep :: b) = Js.splitOn sep a ++ Js.splitOn sep b.
Proof.
  induction a as [|c a IH]; simpl.
  - now rewrite Ascii.eqb_refl.
  - destruct (Ascii.eqb c sep); [now rewrite IH|].
    rewrite IH. pose proof (splitOn_nonempty sep a) as N.
    destruct (Js.splitOn sep a); [contradiction|reflexivity].
Qed.

Lemma splitOn_free sep l :
  forallb (fun c => negb (Ascii.eqb c sep)) l = true -> Js.splitOn sep l = [l].
Proof.
  induction l as [|c l IH]; simpl; [reflexivity|].
  intros H. apply andb_true_iff in H as [H1 H2].
  destruct (Ascii.eqb c sep); [discriminate|]. now rewrite IH.
Qed.

Lemma joinSegments_snoc segs n :
  joinSegments (segs ++ [n]) =
  match segs with
  | [] => n
  | _ => joinSegments segs ++ slash :: n
  end.
Proof.
  induction segs as [|s segs IH]; [reflexivity|].
  destruct segs as [|s' segs]; [reflexivity|].
  change (joinSegments ((s :: s' :: segs) ++ [n]))
    with (s ++ slash :: joinSegments ((s' :: segs) ++ [n])).
  rewrite IH. change (joinSegments (s :: s' :: segs))
    with (s ++ slash :: joinSegments (s' :: segs)).
  now rewrite <- app_assoc.
Qed.

Lemma valid_inv n :
  validChars n = true ->
  n <> [] /\ forallb notSlash n = true /\ n <> [dot] /\ n <> [dot; dot].
Proof.
  unfold validChars. destruct n as [|c n]; [discriminate|].
  intros H. apply andb_true_iff in H as [H H3].
  apply andb_true_iff in H as [H1 H2].
  repeat split; try discriminate; try assumption.
  - destruct (list_eqb_spec (c :: n) [dot]); [discriminate|assumption].
  - destruct (list_eqb_spec (c :: n) [dot; dot]); [discriminate|assumption].
Qed.

Lemma normalizeStep_valid allow stack n :
  validChars n = true -> normalizeStep allow stack n = n :: stack.
Proof.
  intros V. apply valid_inv in V as (N0 & _ & N1 & N2).
  unfold normalizeStep.
  destruct (list_eqb_spec n []); [contradiction|].
  destruct (list_eqb_spec n [dot]); [contradiction|].
  destruct (list_eqb_spec n [dot; dot]); [contradiction|reflexivity].
Qed.

Lemma endsWithSlash_valid a n :
  validChars n = true -> endsWithSlash (a ++ n) = false.
Proof.
  intros V. apply valid_inv in V as (N0 & NS & _).
  unfold endsWithSlash. rewrite rev_app_distr.
  destruct (rev n) as [|c r] eqn:E.
  - apply (f_equal (@rev ascii)) in E. rewrite rev_involutive in E.
    now subst.
  - simpl. assert (In c n) as I.
    { apply in_rev. rewrite E. now left. }
    rewrite forallb_forall in NS. specialize (NS c I).
    unfold notSlash in NS. now destruct (Ascii.eqb c slash).
Qed.

Lemma normalizeChars_nonempty p :
  p <> [] ->
  normalizeChars p =
  let isAbsolute := startsWithSlash p in
  let trailingSeparator := endsWithSlash p in
  let stack :=
    fold_left (normalizeStep (negb isAbsolute)) (Js.splitOn slash p) [] in
  let res := joinSegments (rev stack) in
  match res with
  | [] =>
      if isAbsolute then [slash]
      else if trailingSeparator then [dot; slash] else [dot]
  | _ =>
      (if isAbsolute then [slash] else []) ++ res ++
      (if trailingSeparator then [slash] else [])
  end.
Proof. destruct p; [contradiction|reflexivity]. Qed.

Lemma normalize_snoc a n :
  validChars n = true ->
  (a = [] \/ exists a', a = a' ++ [slash]) ->
  exists P, normalizeChars (a ++ n) = P ++ n /\ dirPrefix P.
Proof.
  intros V Ha. pose proof (valid_inv n V) as (N0 & NS & _).
  assert (Js.splitOn slash (a ++ n) =
          match a with [] => [] | _ => Js.splitOn slash (removelast a) end
          ++ [n]) as Hsplit.
  { destruct Ha as [->|[a' ->]].
    - simpl. now apply splitOn_free.
    - rewrite <- app_assoc. simpl. rewrite splitOn_app.
      rewrite (splitOn_free slash n NS). rewrite removelast_last.
      now destruct a'. }
  rewrite normalizeChars_nonempty
    by (intros Ep; apply app_eq_nil in Ep as [_ ?]; contradiction).
  cbv zeta. rewrite Hsplit, (endsWithSlash_valid a n V).
  set (abs := startsWithSlash (a ++ n)).
  set (segs := match a with [] => [] | _ => _ end).
  assert (fold_left (normalizeStep (negb abs)) (segs ++ [n]) [] =
          n :: fold_left (normalizeStep (negb abs)) segs []) as ->.
  { rewrite fold_left_app. apply (normalizeStep_valid _ _ _ V). }
  set (stack := fold_left _ segs []).
  change (rev (n :: stack)) with (rev stack ++ [n]).
  rewrite joinSegments_snoc, app_nil_r.
  set (pre := if abs then [slash] else []).
  destruct (rev stack) as [|s0 segs'].
  - destruct n as [|c n]; [contradiction|].
    exists pre. split; [reflexivity|].
    unfold pre. destruct abs; [right; now exists []|now left].
  - set (J := joinSegments (s0 :: segs')).
    destruct (J ++ slash :: n) as [|c1 r1] eqn:Ej.
    { destruct J; discriminate. }
    rewrite <- Ej.
    exists (pre ++ J ++ [slash]). split.
    + now rewrite <- !app_assoc.
    + right. exists (pre ++ J). now rewrite <- app_assoc.
Qed.

Lemma joinChars_shape d n :
  validChars n = true ->
  exists P, joinChars d n = P ++ n /\ dirPrefix P.
Proof.
  intros V. pose proof (valid_inv n V) as (N0 & _).
  unfold joinChars. destruct d as [|c d].
  - destruct n as [|c n]; [contradiction|].
    apply (normalize_snoc [] (c :: n) V). now left.
  - destruct n as [|c' n]; [contradiction|].
    replace ((c :: d) ++ slash :: c' :: n)
      with (((c :: d) ++ [slash]) ++ c' :: n) by now rewrite <- app_assoc.
    apply normalize_snoc; [assumption|]. right. now exists (c :: d).
Qed.

Lemma slice_app {A} (x y : list A) :
  Js.slice (Z.of_nat (List.length x))
           (Z.of_nat (List.length x + List.length y)) (x ++ y) = y.
Proof.
  unfold Js.slice. rewrite !Nat2Z.id, <- length_app, firstn_all.
  rewrite skipn_app, skipn_all, Nat.sub_diag. reflexivity.
Qed.

Lemma forallb_rev {A} (f : A -> bool) l :
  forallb f l = true -> forallb f (rev l) = true.
Proof.
  rewrite !forallb_forall. intros H x I. apply H. now apply in_rev.
Qed.

Lemma notSlash_false c : notSlash c = true -> Ascii.eqb c slash = false.
Proof. unfold notSlash. now destruct (Ascii.eqb c slash). Qed.

Lemma notDot_false c : notDot c = true -> Ascii.eqb c dot = false.
Proof. unfold notDot. now destruct (Ascii.eqb c dot). Qed.

Lemma scanBack_cons {S} (body : Z -> ascii -> S -> S * bool) c rest s :
  scanBack body (c :: rest) s =
  (if snd (body (Z.of_nat (List.length rest)) c s)
   then fst (body (Z.of_nat (List.length rest)) c s)
   else scanBack body rest (fst (body (Z.of_nat (List.length rest)) c s))).
Proof. simpl. now destruct (body _ c s) as [s' []]. Qed.

Ltac fields :=
  cbn [fst snd negb andb orb Z.eqb Pos.eqb
       b_start b_end b_matchedSlash
       startDot startPart e_end matchedSlash preDotState].

(** *** [basename] of a joined path *)

Lemma basename_steady m rest s :
  forallb notSlash m = true -> b_end s <> -1 ->
  scanBack basenameBody (m ++ rest) s = scanBack basenameBody rest s.
Proof.
  induction m as [|c m IH]; intros NS E; [reflexivity|].
  simpl in NS. apply andb_true_iff in NS as [Hc NS].
  change ((c :: m) ++ rest) with (c :: (m ++ rest)).
  rewrite scanBack_cons. unfold basenameBody.
  rewrite (notSlash_false c Hc).
  destruct (Z.eqb_spec (b_end s) (-1)); [contradiction|].
  now apply IH.
Qed.

Lemma basename_first i c :
  notSlash c = true ->
  basenameBody i c (mkBase 0 (-1) true) = (mkBase 0 (i + 1) false, false).
Proof.
  intros Hc. unfold basenameBody. now rewrite (notSlash_false c Hc).
Qed.

Lemma basename_slash i s :
  b_matchedSlash s = false ->
  basenameBody i slash s = (mkBase (i + 1) (b_end s) false, true).
Proof.
  intros H. unfold basenameBody. now rewrite Ascii.eqb_refl, H.
Qed.

Lemma basename_scan P n :
  validChars n = true -> dirPrefix P ->
  scanBack basenameBody (rev (P ++ n)) (mkBase 0 (-1) true) =
  mkBase (Z.of_nat (List.length P))
         (Z.of_nat (List.length P + List.length n)) false.
Proof.
  intros V HP. apply valid_inv in V as (N0 & NS & _).
  rewrite rev_app_distr.
  pose proof (forallb_rev _ _ NS) as NR.
  pose proof (length_rev n) as LR.
  destruct (rev n) as [|c m] eqn:En.
  { destruct n; [contradiction|discriminate]. }
  simpl in NR. apply andb_true_iff in NR as [Hc NR].
  change ((c :: m) ++ rev P) with (c :: (m ++ rev P)).
  rewrite scanBack_cons, basename_first by assumption. fields.
  rewrite basename_steady; [|assumption|fields; lia].
  assert (Z.of_nat (List.length (m ++ rev P)) + 1 =
          Z.of_nat (List.length P + List.length n)) as ->.
  { rewrite length_app, length_rev. simpl in LR. lia. }
  destruct HP as [->|[P' ->]]; [reflexivity|].
  rewrite rev_app_distr. cbn [rev app].
  rewrite scanBack_cons, basename_slash by reflexivity. fields. f_equal.
  rewrite length_app, length_rev. simpl. lia.
Qed.

Lemma basenameChars_shape P n :
  validChars n = true -> dirPrefix P -> basenameChars (P ++ n) = n.
Proof.
  intros V HP. unfold basenameChars. rewrite basename_scan by assumption.
  cbn [b_end b_start].
  destruct (Z.eqb_spec (Z.of_nat (List.length P + List.length n)) (-1));
    [lia|].
  apply slice_app.
Qed.

(** *** [extname] of a joined path *)

Lemma ext_first i c :
  notSlash c = true ->
  extnameBody i c (mkExt (-1) 0 (-1) true 0) =
  extnameBody i c (mkExt (-1) 0 (i + 1) false 0).
Proof.
  intros Hc. unfold extnameBody. rewrite (notSlash_false c Hc). simpl.
  destruct (Z.eqb_spec (i + 1) (-1)) as [E|E]; [now rewrite E|reflexivity].
Qed.

Lemma ext_before_dot m rest s :
  forallb notSlash m = true -> forallb notDot m = true ->
  e_end s <> -1 -> startDot s = -1 ->
  scanBack extnameBody (m ++ rest) s = scanBack extnameBody rest s.
Proof.
  induction m as [|c m IH]; intros NS ND E D; [reflexivity|].
  simpl in NS, ND. apply andb_true_iff in NS as [Hc NS].
  apply andb_true_iff in ND as [Hd ND].
  change ((c :: m) ++ rest) with (c :: (m ++ rest)).
  rewrite scanBack_cons. unfold extnameBody.
  rewrite (notSlash_false c Hc), (notDot_false c Hd).
  destruct (Z.eqb_spec (e_end s) (-1)); [contradiction|].
  rewrite D. cbn [Z.eqb negb fst snd]. now apply IH.
Qed.

Lemma ext_after_dot_step i c s :
  notSlash c = true -> e_end s <> -1 -> startDot s <> -1 ->
  extnameBody i c s = (setPre s (preOf c), false).
Proof.
  intros Hc E D. unfold extnameBody, preOf.
  rewrite (notSlash_false c Hc).
  destruct (Z.eqb_spec (e_end s) (-1)); [contradiction|].
  destruct (Z.eqb_spec (startDot s) (-1)); [contradiction|].
  destruct (Ascii.eqb c dot); simpl; [|reflexivity].
  destruct (Z.eqb_spec (preDotState s) 1) as [E1|E1]; simpl; [|reflexivity].
  unfold setPre. rewrite <- E1. now destruct s.
Qed.

Lemma ext_after_dot m c rest s :
  forallb notSlash m = true -> notSlash c = true ->
  e_end s <> -1 -> startDot s <> -1 ->
  scanBack extnameBody ((m ++ [c]) ++ rest) s =
  scanBack extnameBody rest (setPre s (preOf c)).
Proof.
  revert s. induction m as [|x m IH]; intros s NS Hc E D.
  - cbn [app]. rewrite scanBack_cons.
    now rewrite ext_after_dot_step.
  - simpl in NS. apply andb_true_iff in NS as [Hx NS].
    change (((x :: m) ++ [c]) ++ rest) with (x :: ((m ++ [c]) ++ rest)).
    rewrite scanBack_cons, ext_after_dot_step by assumption.
    cbn [fst snd]. rewrite IH by assumption. reflexivity.
Qed.

Lemma splitLastDot_none n :
  splitLastDot n = None -> forallb notDot n = true.
Proof.
  induction n as [|c n IH]; simpl; [reflexivity|].
  destruct (splitLastDot n) as [[b a]|]; [discriminate|].
  unfold notDot at 1. destruct (Ascii.eqb c dot); [discriminate|].
  intros _. now rewrite IH.
Qed.

Lemma splitLastDot_some n b a :
  splitLastDot n = Some (b, a) ->
  n = b ++ dot :: a /\ forallb notDot a = true.
Proof.
  revert b a. induction n as [|c n IH]; simpl; [discriminate|].
  intros b a. destruct (splitLastDot n) as [[b' a']|] eqn:E.
  - intros [= <- <-]. destruct (IH _ _ eq_refl) as [-> H]. now split.
  - destruct (Ascii.eqb_spec c dot) as [->|]; [|discriminate].
    intros [= <- <-]. split; [reflexivity|now apply splitLastDot_none].
Qed.

Lemma ext_dot_step i s :
  e_end s <> -1 -> startDot s = -1 ->
  extnameBody i dot s =
  (mkExt i (startPart s) (e_end s) (matchedSlash s) (preDotState s), false).
Proof.
  intros E D. unfold extnameBody.
  change (Ascii.eqb dot slash) with false. rewrite Ascii.eqb_refl.
  destruct (Z.eqb_spec (e_end s) (-1)); [contradiction|].
  now rewrite D.
Qed.

Lemma ext_slash_step i s :
  matchedSlash s = false ->
  extnameBody i slash s =
  (mkExt (startDot s) (i + 1) (e_end s) false (preDotState s), true).
Proof.
  intros H. unfold extnameBody. now rewrite Ascii.eqb_refl, H.
Qed.

Lemma ext_start n rest :
  n <> [] -> forallb notSlash n = true ->
  scanBack extnameBody (rev n ++ rest) (mkExt (-1) 0 (-1) true 0) =
  scanBack extnameBody (rev n ++ rest)
    (mkExt (-1) 0 (Z.of_nat (List.length n + List.length rest)) false 0).
Proof.
  intros N0 NS. pose proof (forallb_rev _ _ NS) as NR.
  pose proof (length_rev n) as LR.
  destruct (rev n) as [|c m] eqn:En.
  { destruct n; [contradiction|discriminate]. }
  simpl in NR. apply andb_true_iff in NR as [Hc _].
  change ((c :: m) ++ rest) with (c :: (m ++ rest)).
  rewrite !scanBack_cons, ext_first by assumption.
  replace (Z.of_nat (List.length n + List.length rest))
    with (Z.of_nat (List.length (m ++ rest)) + 1); [reflexivity|].
  rewrite length_app. simpl in LR. lia.
Qed.

Lemma ext_finish P s :
  dirPrefix P -> matchedSlash s = false -> startPart s = 0 ->
  scanBack extnameBody (rev P) s =
  mkExt (startDot s) (Z.of_nat (List.length P)) (e_end s) false
        (preDotState s).
Proof.
  intros [->|[P' ->]] M S0.
  - simpl. rewrite <- M, <- S0. now destruct s.
  - rewrite rev_app_distr. cbn [rev app].
    rewrite scanBack_cons, ext_slash_step by assumption. fields.
    f_equal. rewrite length_app, length_rev. simpl. lia.
Qed.

Ltac arith :=
  subst; rewrite ?length_app, ?length_rev in *; cbn [List.length] in *; lia.

(** The state in which the loop of [extname] ends on a joined path. *)
Lemma ext_scan P n :
  validChars n = true -> dirPrefix P ->
  scanBack extnameBody (rev (P ++ n)) (mkExt (-1) 0 (-1) true 0) =
  let lenP := Z.of_nat (List.length P) in
  let lenN := Z.of_nat (List.length n) in
  match splitLastDot n with
  | None => mkExt (-1) lenP (lenP + lenN) false 0
  | Some (b, a) =>
      mkExt (lenP + Z.of_nat (List.length b)) lenP (lenP + lenN) false
            match b with
            | [] => 0
            | x :: _ => preOf x
            end
  end.
Proof.
  intros V HP. apply valid_inv in V as (N0 & NS & _).
  rewrite rev_app_distr, ext_start by assumption.
  rewrite length_rev. cbv zeta.
  set (E := Z.of_nat (List.length n + List.length P)).
  assert (E = Z.of_nat (List.length P) + Z.of_nat (List.length n)) as HE
    by (unfold E; lia).
  clearbody E.
  destruct (splitLastDot n) as [[b a]|] eqn:Es.
  - apply splitLastDot_some in Es as [-> ND].
    rewrite forallb_app in NS. apply andb_true_iff in NS as [NSb NSa].
    cbn [forallb] in NSa. apply andb_true_iff in NSa as [_ NSa].
    rewrite rev_app_distr. cbn [rev]. rewrite <- !app_assoc. cbn [app].
    rewrite ext_before_dot;
      [|now apply forallb_rev|now apply forallb_rev|fields; lia|reflexivity].
    rewrite scanBack_cons, ext_dot_step; [|fields; lia|reflexivity]. fields.
    rewrite length_app, !length_rev.
    destruct b as [|x b].
    + cbn [rev app]. rewrite ext_finish by (assumption || reflexivity).
      fields. f_equal; arith.
    + cbn [forallb] in NSb. apply andb_true_iff in NSb as [Hx NSb].
      cbn [rev]. rewrite ext_after_dot;
        [|now apply forallb_rev|assumption|fields; lia|fields; lia].
      rewrite ext_finish by (assumption || reflexivity).
      unfold setPre. fields. f_equal; arith.
  - apply splitLastDot_none in Es.
    rewrite ext_before_dot;
      [|now apply forallb_rev|now apply forallb_rev|fields; lia|reflexivity].
    rewrite ext_finish by (assumption || reflexivity).
    fields. f_equal; arith.
Qed.

Lemma extnameChars_shape P n :
  validChars n = true -> dirPrefix P ->
  extnameChars (P ++ n) = extnameOfName n.
Proof.
  intros V HP. unfold extnameChars, extnameOfName.
  rewrite ext_scan by assumption. cbv zeta.
  apply valid_inv in V as (N0 & NS & N1 & N2).
  destruct (splitLastDot n) as [[b a]|] eqn:Es; [|reflexivity].
  apply splitLastDot_some in Es as [-> ND].
  destruct b as [|x b]; fields.
  { rewrite !orb_true_r. reflexivity. }
  set (lenP := Z.of_nat (List.length P)).
  set (k := lenP + Z.of_nat (List.length (x :: b))).
  set (E := lenP + Z.of_nat (List.length ((x :: b) ++ dot :: a))).
  assert (0 <= lenP) by (unfold lenP; lia).
  assert (k = Z.of_nat (List.length (P ++ x :: b))) as Hk
    by (unfold k, lenP; rewrite length_app; lia).
  assert (E = Z.of_nat (List.length (P ++ x :: b) +
                        List.length (dot :: a))) as HE
    by (unfold E, lenP; rewrite !length_app; simpl; lia).
  destruct (Z.eqb_spec k (-1)); [lia|].
  destruct (Z.eqb_spec E (-1)); [lia|].
  assert ((preOf x =? 0) = false) as ->
    by (unfold preOf; now destruct (Ascii.eqb x dot)).
  cbn [orb].
  assert (((preOf x =? 1) && (k =? E - 1) && (k =? lenP + 1)) = false) as ->.
  { apply not_true_is_false. intros T.
    apply andb_true_iff in T as [T T3]. apply andb_true_iff in T as [T1 T2].
    apply Z.eqb_eq in T2, T3. unfold preOf in T1.
    destruct (Ascii.eqb_spec x dot) as [->|]; [|discriminate].
    rewrite HE, Hk in T2. simpl in T2.
    destruct a; [|simpl in T2; lia].
    unfold k in T3. simpl in T3. destruct b; [|simpl in T3; lia].
    now apply N2. }
  rewrite Hk, HE.
  replace (P ++ (x :: b) ++ dot :: a) with ((P ++ x :: b) ++ dot :: a)
    by now rewrite <- app_assoc.
  apply slice_app.
Qed.

(** What the program reads off the path of a directory entry. *)
Lemma basename_join directory name :
  valid name = true ->
  basename (join directory name) = name.
Proof.
  intros V. unfold basename, join. rewrite chars_str.
  destruct (joinChars_shape (Js.chars directory) _ V) as (P & -> & HP).
  rewrite basenameChars_shape by assumption. apply str_chars.
Qed.

Lemma extname_join directory name :
  valid name = true ->
  extname (join directory name) = Js.str (extnameOfName (Js.chars name)).
Proof.
  intros V. unfold extname, join. rewrite chars_str.
  destruct (joinChars_shape (Js.chars directory) _ V) as (P & -> & HP).
  now rewrite extnameChars_shape.
Qed.

End PathFacts.

(** ** The traversal *)

Lemma visitFile_returns v st : fst (visitFile v st) = Return tt.
Proof.
  unfold visitFile, bind, tryCatch, modify, readAndCount, bind, await,
    warnUnreadable, console_warn, modify, ret, throw.
  destruct (v_readFile v); [|reflexivity].
  destruct (v_stat v); reflexivity.
Qed.

Lemma visitFile_run v st : visitFile v st = (Return tt, runVisits [v] st).
Proof.
  unfold runVisits. simpl. pose proof (visitFile_returns v st) as H.
  destruct (visitFile v st) as [o st']. simpl in *. now subst.
Qed.

Lemma runVisits_app vs1 vs2 st :
  runVisits (vs1 ++ vs2) st = runVisits vs2 (runVisits vs1 st).
Proof. apply fold_left_app. Qed.

Lemma forOf_cons {A} (body : A -> M unit) x rest st :
  forOf body (x :: rest) st =
  match body x st with
  | (Return _, st') => forOf body rest st'
  | (Throw message, st') => (Throw message, st')
  end.
Proof. reflexivity. Qed.

Lemma ignoredName_test name :
  negb (String.eqb name "node_modules") && negb (String.eqb name ".git") =
  negb (ignoredName name).
Proof. unfold ignoredName. now rewrite negb_orb. Qed.

Lemma extensionOf_join directory name :
  Names.valid name = true ->
  extensionOf (Path.join directory name) = nameExtension name.
Proof.
  intros V. unfold extensionOf, nameExtension.
  now rewrite PathFacts.extname_join.
Qed.

Lemma forOf_walkAll (f : Dirent -> M unit)
    (w : Dirent -> list Visit * option string) entries :
  Forall (fun e => forall st,
            f e st = (outcomeOf (snd (w e)), runVisits (fst (w e)) st))
         entries ->
  forall st,
    forOf f entries st =
    (outcomeOf (snd (walkAll w entries)),
     runVisits (fst (walkAll w entries)) st).
Proof.
  induction 1 as [|e rest He _ IH]; intros st; [reflexivity|].
  rewrite forOf_cons, He. simpl walkAll.
  destruct (w e) as [vs [m|]]; simpl; [reflexivity|].
  rewrite IH. destruct (walkAll w rest) as [vs' r]. simpl.
  now rewrite runVisits_app.
Qed.

(** The program, entry by entry, does what [walk] tells. *)
Lemma analyzeEntry_walk entry :
  wellFormed entry = true ->
  forall directory st,
    analyzeEntry directory entry st =
    (outcomeOf (snd (walk directory entry)),
     runVisits (fst (walk directory entry)) st).
Proof.
  induction entry as [name entries IH|name message|name readFile stat|name]
    using Dirent_tree_ind; intros WF directory st.
  - simpl in WF. apply andb_true_iff in WF as [V WF].
    cbn [analyzeEntry walk entryName].
    rewrite (PathFacts.basename_join _ _ V), ignoredName_test.
    destruct (ignoredName name); [reflexivity|]. cbn [negb].
    apply forOf_walkAll.
    rewrite forallb_forall in WF. rewrite Forall_forall in IH |- *.
    intros e I st'. apply IH; [assumption|]. now apply WF.
  - simpl in WF. apply andb_true_iff in WF as [V _].
    cbn [analyzeEntry walk entryName].
    rewrite (PathFacts.basename_join _ _ V), ignoredName_test.
    now destruct (ignoredName name).
  - simpl in WF. apply andb_true_iff in WF as [V _].
    cbn [analyzeEntry walk entryName].
    rewrite (extensionOf_join _ _ V).
    destruct (has CODE_FILE_EXTENSIONS (nameExtension name)); [|reflexivity].
    apply (visitFile_run (mkVisit _ _ _ _)).
  - reflexivity.
Qed.

Lemma analyzeDir_walk directory readdir :
  wellFormedListing readdir = true ->
  forall st,
    analyzeDir directory readdir st =
    (outcomeOf (snd (walkDir directory readdir)),
     runVisits (fst (walkDir directory readdir)) st).
Proof.
  intros WF st. destruct readdir as [entries|message]; [|reflexivity].
  unfold analyzeDir, walkDir. cbn [await bind ret].
  apply forOf_walkAll. simpl in WF. rewrite forallb_forall in WF.
  apply Forall_forall. intros e I st'. apply analyzeEntry_walk. now apply WF.
Qed.

(** ** The store after a sequence of visits *)

Lemma visitFile_afterVisit v st : snd (visitFile v st) = afterVisit v st.
Proof.
  unfold visitFile, afterVisit, bind, tryCatch, modify, readAndCount, bind,
    await, modify, ret, throw, lineCount.
  destruct (v_readFile v); [|reflexivity].
  destruct (v_stat v); reflexivity.
Qed.

Lemma runVisits_cons v vs st :
  runVisits (v :: vs) st = runVisits vs (afterVisit v st).
Proof. unfold runVisits. simpl. now rewrite visitFile_afterVisit. Qed.

Lemma sumZ_app l1 l2 : sumZ (l1 ++ l2) = sumZ l1 + sumZ l2.
Proof. induction l1; simpl; lia. Qed.

Ltac visit_cases v :=
  unfold afterVisit, recordOf, sizeOf, warningOf, complete, contentRead,
    warnUnreadable, console_warn, modify;
  destruct (v_readFile v); [destruct (v_stat v)|]; simpl.

Lemma runVisits_totalFiles vs st :
  totalFiles (runVisits vs st) = totalFiles st + Z.of_nat (List.length vs).
Proof.
  revert st. induction vs as [|v vs IH]; intros st; [simpl; lia|].
  rewrite runVisits_cons, IH.
  assert (totalFiles (afterVisit v st) = totalFiles st + 1) as ->
    by (visit_cases v; reflexivity).
  cbn [List.length]. lia.
Qed.

Lemma runVisits_fileLines vs st :
  fileLines (runVisits vs st) = fileLines st ++ recordsOf vs.
Proof.
  revert st. induction vs as [|v vs IH]; intros st.
  - simpl. now rewrite app_nil_r.
  - rewrite runVisits_cons, IH.
    assert (fileLines (afterVisit v st) = fileLines st ++ recordOf v) as ->
      by (visit_cases v; now rewrite ?app_nil_r).
    unfold recordsOf. simpl. now rewrite app_assoc.
Qed.

Lemma runVisits_totalLines vs st :
  totalLines (runVisits vs st) =
  totalLines st + sumZ (map lines (recordsOf vs)).
Proof.
  revert st. induction vs as [|v vs IH]; intros st; [simpl; lia|].
  rewrite runVisits_cons, IH.
  assert (totalLines (afterVisit v st) =
          totalLines st + sumZ (map lines (recordOf v))) as ->
    by (visit_cases v; lia).
  unfold recordsOf. simpl. rewrite map_app, sumZ_app. lia.
Qed.

Lemma runVisits_totalSize vs st :
  totalSize (runVisits vs st) = totalSize st + sumZ (map sizeOf vs).
Proof.
  revert st. induction vs as [|v vs IH]; intros st; [simpl; lia|].
  rewrite runVisits_cons, IH.
  assert (totalSize (afterVisit v st) = totalSize st + sizeOf v) as ->
    by (visit_cases v; lia).
  simpl. lia.
Qed.

Lemma runVisits_extensionsCount vs st :
  extensionsCount (runVisits vs st) =
  fold_left countKey (countedExtensions vs) (extensionsCount st).
Proof.
  revert st. induction vs as [|v vs IH]; intros st; [reflexivity|].
  rewrite runVisits_cons, IH. unfold countedExtensions. simpl.
  visit_cases v; reflexivity.
Qed.

Lemma runVisits_stderr vs st :
  stderr (runVisits vs st) = stderr st ++ flat_map warningOf vs.
Proof.
  revert st. induction vs as [|v vs IH]; intros st.
  - simpl. now rewrite app_nil_r.
  - rewrite runVisits_cons, IH.
    assert (stderr (afterVisit v st) = stderr st ++ warningOf v) as ->
      by (visit_cases v; now rewrite ?app_nil_r).
    simpl. now rewrite app_assoc.
Qed.

Lemma runVisits_stdout vs st : stdout (runVisits vs st) = stdout st.
Proof.
  revert st. induction vs as [|v vs IH]; intros st; [reflexivity|].
  rewrite runVisits_cons, IH. visit_cases v; reflexivity.
Qed.

(** ** Sorting by a key, largest first *)

Section SortFacts.
Context {A : Type} (key : A -> Z).

Let cmp (a b : A) : Z := key b - key a.

Lemma insertSorted_perm x l : Permutation (insertSorted cmp x l) (x :: l).
Proof.
  induction l as [|y l IH]; simpl; [reflexivity|].
  destruct (cmp x y <=? 0); [reflexivity|].
  rewrite IH. apply perm_swap.
Qed.

Lemma sort_perm l : Permutation (sort cmp l) l.
Proof.
  induction l as [|x l IH]; simpl; [reflexivity|].
  rewrite insertSorted_perm. now constructor.
Qed.

Lemma sort_length l : List.length (sort cmp l) = List.length l.
Proof. apply Permutation_length, sort_perm. Qed.

Lemma insertSorted_descending x l :
  descendingBy key l -> descendingBy key (insertSorted cmp x l).
Proof.
  unfold descendingBy. induction 1 as [|y l Hl IH Hy]; simpl.
  - repeat constructor.
  - destruct (Z.leb_spec (cmp x y) 0) as [L|L]; unfold cmp in L.
    + constructor; [now constructor|].
      constructor; [lia|].
      rewrite Forall_forall in Hy |- *. intros z I.
      specialize (Hy z I). lia.
    + constructor; [assumption|].
      rewrite Forall_forall in Hy |- *. intros z I.
      apply (Permutation_in _ (insertSorted_perm x l)) in I.
      destruct I as [<-|I]; [lia|now apply Hy].
Qed.

Lemma sort_descending l : descendingBy key (sort cmp l).
Proof.
  induction l as [|x l IH]; simpl; [constructor|].
  now apply insertSorted_descending.
Qed.

Lemma insertSorted_filter k x l :
  filter (fun a => key a =? k) (insertSorted cmp x l) =
  filter (fun a => key a =? k) (x :: l).
Proof.
  induction l as [|y l IH]; [reflexivity|].
  cbn [insertSorted].
  destruct (Z.leb_spec (cmp x y) 0) as [L|L]; [reflexivity|].
  unfold cmp in L. cbn [filter] in *. rewrite IH.
  destruct (Z.eqb_spec (key x) k), (Z.eqb_spec (key y) k);
    try reflexivity; lia.
Qed.

Lemma sort_stable k l :
  filter (fun a => key a =? k) (sort cmp l) = filter (fun a => key a =? k) l.
Proof.
  induction l as [|x l IH]; [reflexivity|].
  cbn [sort fold_right]. rewrite insertSorted_filter.
  cbn [filter]. fold (sort cmp l). now rewrite IH.
Qed.

Lemma top10_length (l : list A) :
  List.length (top10 l) = Nat.min 10 (List.length l).
Proof. apply length_firstn. Qed.

Lemma top10_descending l : descendingBy key l -> descendingBy key (top10 l).
Proof.
  unfold descendingBy, top10. generalize 10%nat. intros n H. revert n.
  induction H as [|x l Hl IH Hx]; intros [|n]; simpl; try constructor.
  - apply IH.
  - rewrite Forall_forall in Hx |- *. intros y I. apply Hx.
    rewrite <- (firstn_skipn n l). apply in_or_app. now left.
Qed.

Lemma top10_sort_order l : keepsEncounterOrder key (top10 (sort cmp l)) l.
Proof.
  intros k. exists (filter (fun a => key a =? k) (skipn 10 (sort cmp l))).
  rewrite <- filter_app. unfold top10. rewrite firstn_skipn.
  symmetry. apply sort_stable.
Qed.

End SortFacts.

(** ** The extension counters *)

Lemma has_In set x : has set x = true <-> In x set.
Proof.
  unfold has. rewrite existsb_exists. split.
  - intros (y & I & E). apply String.eqb_eq in E. now subst.
  - intros I. exists x. split; [assumption|apply String.eqb_refl].
Qed.

Lemma getProp_setProp o k v x :
  getProp (setProp o k v) x = if String.eqb k x then Some v else getProp o x.
Proof.
  induction o as [|[k' v'] o IH]; simpl.
  - reflexivity.
  - destruct (String.eqb_spec k' k) as [->|N]; simpl.
    + now destruct (String.eqb k x).
    + rewrite IH. destruct (String.eqb_spec k' x) as [->|]; [|reflexivity].
      destruct (String.eqb_spec k x); [now subst|reflexivity].
Qed.

Lemma keys_setProp o k v : map fst (setProp o k v) = noteFirst (map fst o) k.
Proof.
  unfold noteFirst. induction o as [|[k' v'] o IH]; simpl; [reflexivity|].
  rewrite (String.eqb_sym k k').
  destruct (String.eqb k' k); simpl; [reflexivity|].
  rewrite IH. unfold has. now destruct (existsb (String.eqb k) (map fst o)).
Qed.

Lemma keys_fold exts o :
  map fst (fold_left countKey exts o) = fold_left noteFirst exts (map fst o).
Proof.
  revert o. induction exts as [|e exts IH]; intros o; [reflexivity|].
  simpl. rewrite IH. unfold countKey. now rewrite keys_setProp.
Qed.

Lemma orZero_Some n : orZero (Some n) = n.
Proof. simpl. destruct (Z.eqb_spec n 0); [now subst|reflexivity]. Qed.

Lemma occurrences_cons x e exts :
  occurrences x (e :: exts) =
  (if String.eqb x e then 1 else 0) + occurrences x exts.
Proof.
  unfold occurrences. simpl. destruct (String.eqb x e); simpl List.length; lia.
Qed.

Lemma value_fold exts o x :
  orZero (getProp (fold_left countKey exts o) x) =
  orZero (getProp o x) + occurrences x exts.
Proof.
  revert o. induction exts as [|e exts IH]; intros o.
  - unfold occurrences. simpl. lia.
  - simpl. rewrite IH, occurrences_cons. unfold countKey.
    rewrite getProp_setProp, (String.eqb_sym x e).
    destruct (String.eqb_spec e x) as [->|]; [|lia].
    rewrite orZero_Some. lia.
Qed.

Lemma noteFirst_fold_In l seen x :
  In x (fold_left noteFirst l seen) <-> In x seen \/ In x l.
Proof.
  revert seen. induction l as [|y l IH]; intros seen; simpl; [tauto|].
  rewrite IH. unfold noteFirst.
  destruct (has seen y) eqn:H.
  - apply has_In in H. split; [tauto|].
    intros [I|[<-|I]]; tauto.
  - rewrite in_app_iff. simpl. tauto.
Qed.

Lemma noteFirst_fold_NoDup l seen :
  NoDup seen -> NoDup (fold_left noteFirst l seen).
Proof.
  revert seen. induction l as [|y l IH]; intros seen N; [assumption|].
  simpl. apply IH. unfold noteFirst.
  destruct (has seen y) eqn:H; [assumption|].
  apply NoDup_app; [assumption|repeat constructor; intros []|].
  intros z I [<-|[]]. apply has_In in I. congruence.
Qed.

Lemma distinct_In l x : In x (distinct l) <-> In x l.
Proof. unfold distinct. rewrite noteFirst_fold_In. simpl. tauto. Qed.

Lemma distinct_NoDup l : NoDup (distinct l).
Proof. apply noteFirst_fold_NoDup. constructor. Qed.

Lemma getProp_In o k n :
  NoDup (map fst o) -> In (k, n) o -> getProp o k = Some n.
Proof.
  induction o as [|[k' v'] o IH]; simpl; [intros _ []|].
  intros N I. inversion N as [|? ? Nk No]; subst.
  destruct I as [[= -> ->]|I].
  - now rewrite String.eqb_refl.
  - destruct (String.eqb_spec k' k) as [->|]; [|now apply IH].
    exfalso. apply Nk. now apply (in_map fst _ (k, n)).
Qed.

Lemma pairs_of_keys {B} (f : string -> B) (o : list (string * B)) :
  (forall p, In p o -> snd p = f (fst p)) ->
  o = map (fun k => (k, f k)) (map fst o).
Proof.
  induction o as [|[k v] o IH]; intros H; [reflexivity|].
  simpl. rewrite <- IH by (intros p I; apply H; now right).
  pose proof (H (k, v) (or_introl eq_refl)) as E. simpl in E. now rewrite <- E.
Qed.

(** The object that the loop builds holds the tally of the extensions. *)
Lemma fold_countKey_tally exts : fold_left countKey exts [] = tally exts.
Proof.
  unfold tally, distinct.
  change (fold_left noteFirst exts [])
    with (fold_left noteFirst exts (map fst (@nil (string * Z)))).
  rewrite <- keys_fold. apply pairs_of_keys.
  intros [k n] I. simpl.
  assert (NoDup (map fst (fold_left countKey exts []))) as N.
  { rewrite keys_fold. apply noteFirst_fold_NoDup. constructor. }
  pose proof (value_fold exts [] k) as V.
  rewrite (getProp_In _ _ _ N I), orZero_Some in V. simpl in V. lia.
Qed.

Lemma tally_length exts :
  List.length (tally exts) = List.length (distinct exts).
Proof. unfold tally. apply length_map. Qed.

(** ** The whole scan *)

Lemma analyzeFolder_walk folderPath readdir st :
  wellFormedListing readdir = true ->
  analyzeFolder folderPath readdir st =
  let scanned :=
    runVisits (fst (walkDir folderPath readdir)) (initLocals st) in
  match snd (walkDir folderPath readdir) with
  | Some message => (Throw message, scanned)
  | None =>
      let sorted := sort byLinesDesc (fileLines scanned) in
      (Return (mkScanResult
                 (totalLines scanned) (totalFiles scanned) (totalSize scanned)
                 (top10 sorted)
                 (top10 (sort byCountDesc (entries (extensionsCount scanned))))),
       setFileLines sorted scanned)
  end.
Proof.
  intros WF. unfold analyzeFolder, bind, modify, gets, ret.
  rewrite (analyzeDir_walk _ _ WF).
  now destruct (snd (walkDir folderPath readdir)).
Qed.

Lemma analyzeDir_scanned folderPath readdir st scanned :
  wellFormedListing readdir = true ->
  analyzeDir folderPath readdir (initLocals st) = (Return tt, scanned) ->
  let visits := fst (walkDir folderPath readdir) in
  snd (walkDir folderPath readdir) = None /\
  totalLines scanned = sumZ (map lines (recordsOf visits)) /\
  totalFiles scanned = Z.of_nat (List.length visits) /\
  totalSize scanned = sumZ (map sizeOf visits) /\
  fileLines scanned = recordsOf visits /\
  extensionsCount scanned = tally (countedExtensions visits) /\
  stdout scanned = stdout st /\
  stderr scanned = stderr st ++ flat_map warningOf visits.
Proof.
  intros WF H. rewrite (analyzeDir_walk _ _ WF) in H. cbv zeta.
  destruct (snd (walkDir folderPath readdir)); [discriminate|].
  injection H as <-. split; [reflexivity|].
  rewrite runVisits_totalLines, runVisits_totalFiles, runVisits_totalSize,
    runVisits_fileLines, runVisits_extensionsCount, runVisits_stdout,
    runVisits_stderr.
  simpl. rewrite fold_countKey_tally. repeat split.
Qed.

Lemma analyzeFolder_scanned folderPath readdir st r st' :
  wellFormedListing readdir = true ->
  analyzeFolder folderPath readdir st = (Return r, st') ->
  exists scanned,
    analyzeDir folderPath readdir (initLocals st) = (Return tt, scanned) /\
    r_totalLines r = totalLines scanned /\
    r_totalFiles r = totalFiles scanned /\
    r_totalSize r = totalSize scanned /\
    topFiles r = top10 (sort byLinesDesc (fileLines scanned)) /\
    topExtensions r = top10 (sort byCountDesc (extensionsCount scanned)).
Proof.
  intros WF H. rewrite (analyzeFolder_walk _ _ _ WF) in H. cbv zeta in H.
  exists (runVisits (fst (walkDir folderPath readdir)) (initLocals st)).
  rewrite (analyzeDir_walk _ _ WF).
  destruct (snd (walkDir folderPath readdir)); [discriminate|].
  injection H as <- _. repeat split.
Qed.

(** ** Counting lines *)

Lemma chars_app (a b : string) :
  Js.chars (a ++ b)%string = Js.chars a ++ Js.chars b.
Proof. induction a as [|c a IH]; simpl; [reflexivity|]. now rewrite IH. Qed.

Lemma splitOn_length sep l :
  List.length (Js.splitOn sep l) =
  S (List.length (filter (Ascii.eqb sep) l)).
Proof.
  induction l as [|c l IH]; simpl; [reflexivity|].
  rewrite (Ascii.eqb_sym sep c).
  destruct (Ascii.eqb c sep); simpl; [now rewrite IH|].
  pose proof (PathFacts.splitOn_nonempty sep l) as N.
  destruct (Js.splitOn sep l); [contradiction|]. simpl in *. lia.
Qed.

Lemma lineCount_newlines content : lineCount content = 1 + countNewlines content.
Proof.
  unfold lineCount, countNewlines, Js.split_newline.
  rewrite length_map, splitOn_length. lia.
Qed.

Lemma split_newline_trailing content :
  Js.split_newline (content ++ nl)%string =
  Js.split_newline content ++ [EmptyString].
Proof.
  unfold Js.split_newline. rewrite chars_app.
  change (Js.chars nl) with [Js.newline].
  rewrite PathFacts.splitOn_app, map_app. reflexivity.
Qed.

Lemma analyzeEntry_file directory name readFile stat st :
  analyzeEntry directory (RegularFile name readFile stat) st =
  if has CODE_FILE_EXTENSIONS (extensionOf (Path.join directory name))
  then (Return tt,
        afterVisit (mkVisit (Path.join directory name)
                            (extensionOf (Path.join directory name))
                            readFile stat) st)
  else (Return tt, st).
Proof.
  cbn [analyzeEntry entryName].
  destruct (has CODE_FILE_EXTENSIONS _); [|reflexivity].
  set (v := mkVisit _ _ readFile stat).
  change (visitFile v st = (Return tt, afterVisit v st)).
  rewrite visitFile_run, runVisits_cons. reflexivity.
Qed.

(** C1.  The line count recorded for a recognised file whose content is
    read is the number of segments of the content split at line feeds
    (character 10), whatever the size query answers: the record pushed
    and the amount added to [totalLines] are that number.  It is one
    more than the number of line feeds, so a text without one counts 1
    and a trailing line feed adds one empty segment; a, line feed, b,
    line feed, c counts 3, and with a line feed at the end it counts
    4. *)
Theorem C1_line_count directory name content stat st :
  has CODE_FILE_EXTENSIONS (extensionOf (Path.join directory name)) = true ->
  let segments := Z.of_nat (List.length (Js.split_newline content)) in
  let st' :=
    snd (analyzeEntry directory (RegularFile name (Resolved content) stat) st) in
  fileLines st' =
    fileLines st ++ [mkFileLine (Path.join directory name) segments] /\
  totalLines st' = totalLines st + segments /\
  segments =
    1 + Z.of_nat (List.length
                    (filter (Ascii.eqb "010"%char) (Js.chars content))) /\
  Js.split_newline (content ++ String "010"%char EmptyString)%string =
    Js.split_newline content ++ [EmptyString] /\
  Js.split_newline "a
b
c" = ["a"; "b"; "c"] /\
  Js.split_newline "a
b
c
" = ["a"; "b"; "c"; EmptyString] /\
  Js.split_newline "a b c" = ["a b c"] /\
  List.length (Js.split_newline "a
b
c") = 3%nat /\
  List.length (Js.split_newline "a
b
c
") = 4%nat.
Proof.
  intros Acc. cbv zeta. rewrite analyzeEntry_file, Acc.
  fold (lineCount content).
  split; [|split; [|split; [|split; [|repeat split]]]].
  - unfold afterVisit. simpl. destruct stat; reflexivity.
  - unfold afterVisit. simpl. destruct stat; reflexivity.
  - exact (lineCount_newlines content).
  - exact (split_newline_trailing content).
Qed.

Lemma C1_line_count_witness :
  has CODE_FILE_EXTENSIONS (extensionOf (Path.join "proj" "main.js")) = true /\
  fileLines
    (snd (analyzeEntry "proj"
            (RegularFile "main.js" (Resolved "x
y") (Resolved 3))
            emptyStore)) =
  [mkFileLine "proj/main.js" 2] /\
  totalLines
    (snd (analyzeEntry "proj"
            (RegularFile "main.js" (Resolved "x
y") (Resolved 3))
            emptyStore)) = 0 + 2.
Proof.
  split; [reflexivity|].
  destruct (C1_line_count "proj" "main.js" "x
y" (Resolved 3) emptyStore eq_refl) as (R & T & _).
  split; [exact R|exact T].
Defined.

(** ** Files that cannot be read *)




(** ** Entries that are neither directories nor regular files *)

(** C8, as the program has it.  An entry that is neither a directory nor
    a regular file (a symbolic link, a socket, a device) is passed over:
    nothing is counted, nothing is read, nothing is written.  A
    regular file is handed to the visit exactly when its extension is
    in the allow-list; the visit always ends normally, and it leaves a
    warning exactly when the content or the size could not be had. *)
Theorem C8_only_regular_files :
  (forall directory name st,
     analyzeEntry directory (Other name) st = (Return tt, st)) /\
  (forall directory name readFile stat st,
     analyzeEntry directory (RegularFile name readFile stat) st =
     if has CODE_FILE_EXTENSIONS (extensionOf (Path.join directory name))
     then visitFile (mkVisit (Path.join directory name)
                             (extensionOf (Path.join directory name))
                             readFile stat) st
     else (Return tt, st)) /\
  (forall v st,
     visitFile v st = (Return tt, afterVisit v st) /\
     totalFiles (afterVisit v st) = totalFiles st + 1 /\
     stderr (afterVisit v st) = stderr st ++ warningOf v /\
     (complete v = true <-> warningOf v = [])).
Proof.
  split; [reflexivity|]. split.
  { intros directory name readFile stat st. cbn [analyzeEntry entryName].
    now destruct (has CODE_FILE_EXTENSIONS _). }
  intros v st. split; [|split; [|split]].
  - rewrite visitFile_run, runVisits_cons. reflexivity.
  - visit_cases v; reflexivity.
  - visit_cases v; now rewrite ?app_nil_r.
  - visit_cases v; split; (reflexivity || discriminate).
Qed.

(** C8 as stated fails: the symbolic link [proj/link.js] has an
    extension of the allow-list, yet it is neither counted nor warned
    about, while a regular file of that name is counted. *)
Lemma C8_counterexample :
  has CODE_FILE_EXTENSIONS (extensionOf (Path.join "proj" "link.js")) = true /\
  analyzeEntry "proj" (Other "link.js") emptyStore = (Return tt, emptyStore) /\
  totalFiles
    (snd (analyzeEntry "proj"
            (RegularFile "link.js" (Rejected "ENOENT") (Rejected "ENOENT"))
            emptyStore)) = 1.
Proof. repeat split. Qed.

(** ** The two top-ten lists *)

Lemma recordsOf_length vs :
  Z.of_nat (List.length (recordsOf vs)) =
  Z.of_nat (List.length vs) -
  Z.of_nat (List.length (filter (fun v => negb (contentRead v)) vs)).
Proof.
  unfold recordsOf. induction vs as [|v vs IH]; [reflexivity|].
  cbn [flat_map filter]. rewrite length_app.
  unfold recordOf at 1, contentRead at 1.
  destruct (v_readFile v); cbn [negb List.length app] in *; lia.
Qed.

(** C2, as the program has it.  When a scan completes, [topFiles] holds
    the first [min(10, n)] of the candidate records sorted by line count,
    largest first, where [n] is the number of files whose content was
    read, that is [totalFiles] less the files whose content could not be
    read; [topExtensions] holds the first [min(10, d)] of the extension
    counters sorted by count, largest first, where [d] is the number of
    distinct extensions of the files whose content and size were both
    obtained.  In both lists entries with equal keys keep the order in
    which they were met. *)
Theorem C2_top_lists folderPath readdir st r st' :
  wellFormedListing readdir = true ->
  analyzeFolder folderPath readdir st = (Return r, st') ->
  exists scanned,
    analyzeDir folderPath readdir (initLocals st) = (Return tt, scanned) /\
    let visits := fst (walkDir folderPath readdir) in
    fileLines scanned = recordsOf visits /\
    extensionsCount scanned = tally (countedExtensions visits) /\
    List.length (topFiles r) = Nat.min 10 (List.length (fileLines scanned)) /\
    Z.of_nat (List.length (topFiles r)) =
      Z.min 10 (r_totalFiles r -
                Z.of_nat (List.length
                            (filter (fun v => negb (contentRead v)) visits))) /\
    descendingBy lines (topFiles r) /\
    keepsEncounterOrder lines (topFiles r) (fileLines scanned) /\
    List.length (topExtensions r) =
      Nat.min 10 (List.length (distinct (countedExtensions visits))) /\
    descendingBy snd (topExtensions r) /\
    keepsEncounterOrder snd (topExtensions r) (extensionsCount scanned).
Proof.
  intros WF H.
  destruct (analyzeFolder_scanned _ _ _ _ _ WF H)
    as (scanned & Hs & _ & Hf & _ & Ht & He).
  exists scanned. split; [assumption|]. cbv zeta.
  destruct (analyzeDir_scanned _ _ _ _ WF Hs)
    as (_ & _ & Hn & _ & Hl & Hc & _).
  rewrite Ht, He. unfold byLinesDesc, byCountDesc.
  repeat split.
  - assumption.
  - assumption.
  - now rewrite top10_length, (sort_length lines).
  - rewrite top10_length, (sort_length lines), Hf, Hn, Hl.
    rewrite <- recordsOf_length. lia.
  - apply top10_descending, sort_descending.
  - apply top10_sort_order.
  - now rewrite top10_length, (sort_length snd), Hc, tally_length.
  - apply top10_descending, sort_descending.
  - apply top10_sort_order.
Qed.

Lemma C2_top_lists_witness :
  wellFormedListing busyTree = true /\
  analyzeFolder "proj" busyTree emptyStore = (Return busyResult, busyStore) /\
  r_totalFiles busyResult = 18 /\
  List.length (topFiles busyResult) = 10%nat /\
  List.length (topExtensions busyResult) = 10%nat /\
  exists scanned,
    analyzeDir "proj" busyTree (initLocals emptyStore) = (Return tt, scanned) /\
    let visits := fst (walkDir "proj" busyTree) in
    fileLines scanned = recordsOf visits /\
    extensionsCount scanned = tally (countedExtensions visits) /\
    List.length (topFiles busyResult) =
      Nat.min 10 (List.length (fileLines scanned)) /\
    Z.of_nat (List.length (topFiles busyResult)) =
      Z.min 10 (r_totalFiles busyResult -
                Z.of_nat (List.length
                            (filter (fun v => negb (contentRead v)) visits))) /\
    descendingBy lines (topFiles busyResult) /\
    keepsEncounterOrder lines (topFiles busyResult) (fileLines scanned) /\
    List.length (topExtensions busyResult) =
      Nat.min 10 (List.length (distinct (countedExtensions visits))) /\
    descendingBy snd (topExtensions busyResult) /\
    keepsEncounterOrder snd (topExtensions busyResult)
                        (extensionsCount scanned).
Proof.
  split; [vm_compute; reflexivity|]. split; [vm_compute; reflexivity|].
  split; [reflexivity|]. split; [reflexivity|]. split; [reflexivity|].
  apply (C2_top_lists "proj" busyTree emptyStore busyResult busyStore).
  - vm_compute. reflexivity.
  - vm_compute. reflexivity.
Defined.

(** C2 as stated fails: one recognised file whose content cannot be
    read gives [totalFiles = 1] and an empty [topFiles]. *)
Lemma C2_counterexample :
  exists r st',
    analyzeFolder "proj" unreadableTree emptyStore = (Return r, st') /\
    r_totalFiles r = 1 /\
    Z.of_nat (List.length (topFiles r)) <> Z.min 10 (r_totalFiles r).
Proof.
  exists (mkScanResult 0 1 0 [] []).
  exists (mkStore 0 1 0 [] [] []
            [["Warning: Could not read file proj/main.js"; "EACCES"]]).
  split; [reflexivity|]. split; [reflexivity|discriminate].
Qed.

(** ** The totals *)

Lemma sizeOf_incomplete v : complete v = false -> sizeOf v = 0.
Proof.
  unfold complete, sizeOf.
  destruct (v_readFile v); [destruct (v_stat v)|]; (discriminate || reflexivity).
Qed.

Lemma sumZ_sizeOf_complete vs :
  sumZ (map sizeOf vs) = sumZ (map sizeOf (filter complete vs)).
Proof.
  induction vs as [|v vs IH]; [reflexivity|]. cbn [map filter].
  destruct (complete v) eqn:C; cbn [map sumZ fold_right];
    fold (sumZ (map sizeOf vs)); fold (sumZ (map sizeOf (filter complete vs)));
    rewrite IH; [reflexivity|].
  rewrite (sizeOf_incomplete v C). lia.
Qed.

(** C4, as the program has it.  At the end of a scan [totalLines] is the
    sum of the line counts of the candidate records; [totalFiles] is the
    number of these records plus the number of recognised files whose
    content could not be read; [totalSize] is the sum of the sizes of
    the files whose content and size were both obtained. *)
Theorem C4_totals folderPath readdir st r st' :
  wellFormedListing readdir = true ->
  analyzeFolder folderPath readdir st = (Return r, st') ->
  exists scanned,
    analyzeDir folderPath readdir (initLocals st) = (Return tt, scanned) /\
    let visits := fst (walkDir folderPath readdir) in
    fileLines scanned = recordsOf visits /\
    r_totalLines r = sumZ (map lines (fileLines scanned)) /\
    r_totalFiles r =
      Z.of_nat (List.length (fileLines scanned)) +
      Z.of_nat (List.length (filter (fun v => negb (contentRead v)) visits)) /\
    r_totalSize r = sumZ (map sizeOf (filter complete visits)).
Proof.
  intros WF H.
  destruct (analyzeFolder_scanned _ _ _ _ _ WF H)
    as (scanned & Hs & Htl & Htf & Hts & _).
  exists scanned. split; [assumption|]. cbv zeta.
  destruct (analyzeDir_scanned _ _ _ _ WF Hs)
    as (_ & Hl & Hn & Hz & Hr & _).
  rewrite Htl, Htf, Hts, Hl, Hn, Hz, Hr.
  repeat split.
  - rewrite recordsOf_length. lia.
  - apply sumZ_sizeOf_complete.
Qed.

Lemma C4_totals_witness :
  wellFormedListing busyTree = true /\
  analyzeFolder "proj" busyTree emptyStore = (Return busyResult, busyStore) /\
  r_totalLines busyResult = 42 /\
  r_totalFiles busyResult = 18 /\
  r_totalSize busyResult = 422 /\
  exists scanned,
    analyzeDir "proj" busyTree (initLocals emptyStore) = (Return tt, scanned) /\
    let visits := fst (walkDir "proj" busyTree) in
    fileLines scanned = recordsOf visits /\
    r_totalLines busyResult = sumZ (map lines (fileLines scanned)) /\
    r_totalFiles busyResult =
      Z.of_nat (List.length (fileLines scanned)) +
      Z.of_nat (List.length (filter (fun v => negb (contentRead v)) visits)) /\
    r_totalSize busyResult = sumZ (map sizeOf (filter complete visits)).
Proof.
  split; [vm_compute; reflexivity|]. split; [vm_compute; reflexivity|].
  split; [reflexivity|]. split; [reflexivity|]. split; [reflexivity|].
  apply (C4_totals "proj" busyTree emptyStore busyResult busyStore).
  - vm_compute. reflexivity.
  - vm_compute. reflexivity.
Defined.

(** C4 as stated fails: one recognised file whose content cannot be
    read is counted in [totalFiles], and no record is pushed for it. *)
Lemma C4_counterexample :
  exists scanned,
    analyzeDir "proj" unreadableTree (initLocals emptyStore)
      = (Return tt, scanned) /\
    totalFiles scanned = 1 /\
    fileLines scanned = [] /\
    totalFiles scanned <> Z.of_nat (List.length (fileLines scanned)).
Proof.
  exists (mkStore 0 1 0 [] [] []
            [["Warning: Could not read file proj/main.js"; "EACCES"]]).
  repeat split. discriminate.
Qed.

(** ** Which directories are entered *)

Lemma walkAll_In w entries v :
  In v (fst (walkAll w entries)) ->
  exists e, In e entries /\ In v (fst (w e)).
Proof.
  induction entries as [|e rest IH]; simpl; [intros []|].
  destruct (w e) as [vs [m|]] eqn:E.
  - simpl. intros I. exists e. rewrite E. auto.
  - destruct (walkAll w rest) as [vs' r]. simpl in *.
    intros I. apply in_app_or in I as [I|I].
    + exists e. rewrite E. auto.
    + destruct (IH I) as (e' & I' & Iv). exists e'. auto.
Qed.

Lemma walkAll_complete w entries :
  snd (walkAll w entries) = None ->
  forall e, In e entries ->
    snd (w e) = None /\
    forall v, In v (fst (w e)) -> In v (fst (walkAll w entries)).
Proof.
  induction entries as [|e0 rest IH]; simpl; [intros _ e []|].
  destruct (w e0) as [vs [m|]] eqn:E; [discriminate|].
  destruct (walkAll w rest) as [vs' r]. simpl in *.
  intros -> e [<-|I].
  - rewrite E. split; [reflexivity|]. intros v Iv. apply in_or_app. now left.
  - destruct (IH eq_refl e I) as [N Hv]. split; [assumption|].
    intros v Iv. apply in_or_app. right. now apply Hv.
Qed.

Lemma walk_meets entry :
  forall directory entries v,
    In entry entries -> In v (fst (walk directory entry)) ->
    Meets directory entries v.
Proof.
  induction entry as [name below IH|name message|name readFile stat|name]
    using Dirent_tree_ind; intros directory entries v I Iv;
    cbn [walk entryName] in Iv.
  - destruct (ignoredName name) eqn:G; [destruct Iv|].
    apply walkAll_In in Iv as (e & Ie & Iv).
    apply (meets_below _ _ name below); [assumption..|].
    rewrite Forall_forall in IH. now apply (IH e Ie).
  - destruct (ignoredName name); destruct Iv.
  - destruct (has CODE_FILE_EXTENSIONS (nameExtension name)) eqn:Acc;
      [|destruct Iv].
    destruct Iv as [<-|[]]. now apply meets_here.
  - destruct Iv.
Qed.

Lemma meets_walk directory entries v :
  Meets directory entries v ->
  snd (walkAll (walk directory) entries) = None ->
  In v (fst (walkAll (walk directory) entries)).
Proof.
  induction 1 as [directory entries name readFile stat I Acc
                 |directory entries name below v I G M IH]; intros C.
  - apply (walkAll_complete _ _ C _ I).
    cbn [walk entryName]. rewrite Acc. now left.
  - destruct (walkAll_complete _ _ C _ I) as [N Hv].
    apply Hv. cbn [walk entryName] in N |- *. rewrite G in N |- *.
    now apply IH.
Qed.

Lemma analyzeEntry_ignored directory name readdir st :
  Names.valid name = true -> ignoredName name = true ->
  analyzeEntry directory (Directory name readdir) st = (Return tt, st).
Proof.
  intros V G. cbn [analyzeEntry entryName].
  now rewrite (PathFacts.basename_join _ _ V), ignoredName_test, G.
Qed.

(** C5, as the program has it.  A scan that completes has met exactly
    the recognised files that are among the entries of the root or below listed directories
    not named [node_modules] or [.git], at any depth, and has counted
    each of them; a directory named [node_modules] or [.git] is passed
    over whatever it holds.  A tree that holds only [node_modules] with
    a hundred [.js] files gives [totalFiles = 0]. *)
Theorem C5_ignored_directories directory entries st st' :
  forallb wellFormed entries = true ->
  analyzeDir directory (Resolved entries) st = (Return tt, st') ->
  (exists visits,
     st' = runVisits visits st /\
     (forall v, In v visits <-> Meets directory entries v) /\
     totalFiles st' = totalFiles st + Z.of_nat (List.length visits)) /\
  (forall d inside s,
     analyzeEntry d (Directory "node_modules" inside) s = (Return tt, s)) /\
  (forall d inside s,
     analyzeEntry d (Directory ".git" inside) s = (Return tt, s)) /\
  (forall folderPath s,
     fst (analyzeFolder folderPath
            (Resolved [Directory "node_modules" (Resolved hundredJsFiles)]) s)
     = Return (mkScanResult 0 0 0 [] [])).
Proof.
  intros WF H.
  assert (forall d inside s,
            analyzeEntry d (Directory "node_modules" inside) s = (Return tt, s))
    as Hnm by (intros; now apply analyzeEntry_ignored).
  repeat split.
  - pose proof (analyzeDir_walk directory (Resolved entries) WF st) as E.
    rewrite H in E. cbn [walkDir] in E.
    destruct (snd (walkAll (walk directory) entries)) eqn:C; [discriminate|].
    injection E as ->.
    exists (fst (walkAll (walk directory) entries)).
    split; [reflexivity|]. split; [|apply runVisits_totalFiles].
    intros v. split.
    + intros I. apply walkAll_In in I as (e & Ie & Iv).
      now apply (walk_meets e).
    + intros M. now apply meets_walk.
  - assumption.
  - intros. now apply analyzeEntry_ignored.
  - intros folderPath s.
    unfold analyzeFolder, analyzeDir, bind, modify, gets, await, ret.
    cbn [forOf]. unfold bind. rewrite Hnm. reflexivity.
Qed.

Lemma C5_ignored_directories_witness :
  forallb wellFormed
    [Directory "src" (Resolved hundredJsFiles);
     Directory "node_modules" (Resolved hundredJsFiles)] = true /\
  fst (analyzeFolder "proj"
         (Resolved [Directory "node_modules" (Resolved hundredJsFiles)])
         emptyStore)
  = Return (mkScanResult 0 0 0 [] []).
Proof.
  split; [vm_compute; reflexivity|].
  refine (proj2 (proj2 (proj2
    (C5_ignored_directories "proj"
       [Directory "src" (Resolved hundredJsFiles);
        Directory "node_modules" (Resolved hundredJsFiles)]
       emptyStore
       (snd (analyzeDir "proj"
               (Resolved [Directory "src" (Resolved hundredJsFiles);
                          Directory "node_modules" (Resolved hundredJsFiles)])
               emptyStore))
       _ _))) "proj" emptyStore).
  - vm_compute. reflexivity.
  - vm_compute. reflexivity.
Defined.

(** C5 as stated fails on a tree whose scan does not complete: the
    directory [a] cannot be listed, so the scan stops there; the
    directory [b], which bears neither ignored name and holds the
    recognised file [x.js], is never entered, and nothing is counted. *)
Lemma C5_counterexample :
  forallb wellFormed stoppedTree = true /\
  ignoredName "b" = false /\
  Meets "proj" stoppedTree
        (mkVisit "proj/b/x.js" "js" (Resolved "x") (Resolved 1)) /\
  analyzeDir "proj" (Resolved stoppedTree) emptyStore
    = (Throw "EACCES", emptyStore) /\
  totalFiles (snd (analyzeDir "proj" (Resolved stoppedTree) emptyStore)) = 0.
Proof.
  split; [reflexivity|]. split; [reflexivity|]. split; [|split; reflexivity].
  apply (meets_below "proj" stoppedTree "b"
           [RegularFile "x.js" (Resolved "x") (Resolved 1)]).
  - right. now left.
  - reflexivity.
  - exact (meets_here (Path.join "proj" "b")
             [RegularFile "x.js" (Resolved "x") (Resolved 1)]
             "x.js" (Resolved "x") (Resolved 1)
             (or_introl eq_refl) eq_refl).
Qed.

(** ** A directory that cannot be listed *)

Lemma walkAll_failure w entries e :
  In e entries -> snd (w e) <> None -> snd (walkAll w entries) <> None.
Proof.
  induction entries as [|e0 rest IH]; simpl; [intros []|].
  intros I N. destruct (w e0) as [vs [m|]] eqn:E; [discriminate|].
  destruct I as [->|I]; [rewrite E in N; now elim N|].
  specialize (IH I N). now destruct (walkAll w rest) as [vs' r].
Qed.

Lemma walkAll_failure_from w entries message :
  snd (walkAll w entries) = Some message ->
  exists e, In e entries /\ snd (w e) = Some message.
Proof.
  induction entries as [|e0 rest IH]; simpl; [discriminate|].
  destruct (w e0) as [vs [m|]] eqn:E.
  - intros [= ->]. exists e0. rewrite E. auto.
  - destruct (walkAll w rest) as [vs' r]. simpl in *. intros H.
    destruct (IH H) as (e & I & He). exists e. auto.
Qed.

Lemma reaches_walk message entries :
  ReachesUnlistable message entries ->
  forall directory, snd (walkAll (walk directory) entries) <> None.
Proof.
  induction 1 as [name entries I G|name below entries I G R IH];
    intros directory.
  - apply (walkAll_failure _ _ _ I). cbn [walk entryName]. now rewrite G.
  - apply (walkAll_failure _ _ _ I). cbn [walk entryName]. rewrite G.
    apply IH.
Qed.

Lemma walk_reaches entry :
  forall directory entries message,
    In entry entries -> snd (walk directory entry) = Some message ->
    ReachesUnlistable message entries.
Proof.
  induction entry as [name below IH|name m|name readFile stat|name]
    using Dirent_tree_ind; intros directory entries message I H;
    cbn [walk entryName] in H.
  - destruct (ignoredName name) eqn:G; [discriminate|].
    apply walkAll_failure_from in H as (e & Ie & He).
    apply (unlistable_below _ name below); [assumption..|].
    rewrite Forall_forall in IH. exact (IH e Ie _ below message Ie He).
  - destruct (ignoredName name) eqn:G; [discriminate|].
    injection H as ->. now apply (unlistable_here _ name).
  - now destruct (has CODE_FILE_EXTENSIONS (nameExtension name)).
  - discriminate.
Qed.

Lemma scanFails_walkDir message directory readdir :
  ScanFails message readdir ->
  exists message',
    snd (walkDir directory readdir) = Some message' /\
    ScanFails message' readdir.
Proof.
  destruct readdir as [entries|m]; simpl.
  - intros R. pose proof (reaches_walk _ _ R directory) as N.
    destruct (snd (walkAll (walk directory) entries)) as [m'|] eqn:E;
      [|now elim N].
    exists m'. split; [reflexivity|].
    apply walkAll_failure_from in E as (e & I & He).
    exact (walk_reaches e directory entries m' I He).
  - intros ->. now exists message.
Qed.

(** C7.  When the listing of the root fails, or the traversal reaches a
    directory that cannot be listed, [analyzeFolder] throws the message
    of such a failure; the process then has printed nothing to the
    standard output, has written, after the warnings of the files met
    before, the line [Error: message] to the error stream, and exits
    with code 1. *)
Theorem C7_fatal_scan_error folderPath readdir message :
  folderPath <> EmptyString ->
  wellFormedListing readdir = true ->
  ScanFails message readdir ->
  exists message' warnings,
    ScanFails message' readdir /\
    fst (analyzeFolder folderPath readdir emptyStore) = Throw message' /\
    main (Some folderPath) readdir =
    mkProcess [] (warnings ++ [["Error:"; message']]) 1.
Proof.
  intros NE WF F.
  destruct (scanFails_walkDir _ folderPath _ F) as (m' & W & F').
  exists m', (flat_map warningOf (fst (walkDir folderPath readdir))).
  split; [assumption|].
  pose proof (analyzeFolder_walk folderPath readdir emptyStore WF) as E.
  cbv zeta in E. rewrite W in E.
  split; [now rewrite E|].
  unfold main. destruct folderPath as [|c p]; [contradiction|].
  unfold mainBody, tryCatch, bind. rewrite E.
  unfold console_error, console_warn, modify, ret.
  rewrite runVisits_stdout, runVisits_stderr. reflexivity.
Qed.

Lemma C7_fatal_scan_error_witness :
  exists message' warnings,
    ScanFails message'
      (Resolved [RegularFile "main.js" (Rejected "EACCES") (Resolved 1);
                 Directory "src" (Rejected "EPERM")]) /\
    fst (analyzeFolder "proj"
           (Resolved [RegularFile "main.js" (Rejected "EACCES") (Resolved 1);
                      Directory "src" (Rejected "EPERM")])
           emptyStore) = Throw message' /\
    main (Some "proj")
         (Resolved [RegularFile "main.js" (Rejected "EACCES") (Resolved 1);
                    Directory "src" (Rejected "EPERM")]) =
    mkProcess [] (warnings ++ [["Error:"; message']]) 1.
Proof.
  apply (C7_fatal_scan_error "proj" _ "EPERM").
  - discriminate.
  - reflexivity.
  - apply (unlistable_here _ "src"); [right; now left|reflexivity].
Defined.

(** ** Sizes for the reader *)

Lemma append_assoc (a b c : string) :
  ((a ++ b) ++ c = a ++ (b ++ c))%string.
Proof. induction a as [|x a IH]; simpl; [reflexivity|]. now rewrite IH. Qed.

Lemma decimal_digit d :
  0 <= d <= 9 -> Js.decimal d = String (digitChar d) EmptyString.
Proof.
  intros H.
  assert (d = 0 \/ d = 1 \/ d = 2 \/ d = 3 \/ d = 4 \/
          d = 5 \/ d = 6 \/ d = 7 \/ d = 8 \/ d = 9) as C by lia.
  repeat (destruct C as [->|C]; [reflexivity|]). now subst.
Qed.

Lemma toFixed2_form num den :
  0 <= num -> 0 < den ->
  exists q d1 d2,
    0 <= q /\ 0 <= d1 <= 9 /\ 0 <= d2 <= 9 /\
    Js.toFixed2 num den =
      (Js.decimal q ++ "." ++
       String (digitChar d1) (String (digitChar d2) EmptyString))%string /\
    nearestHundredths (100 * q + 10 * d1 + d2) num den.
Proof.
  intros Hn Hd. unfold Js.toFixed2.
  set (n := (200 * num + den) / (2 * den)).
  assert (0 <= n) as Hn0 by (apply Z.div_pos; lia).
  pose proof (Z.mod_pos_bound n 100 ltac:(lia)) as Hf.
  pose proof (Z.mod_pos_bound (n mod 100) 10 ltac:(lia)) as Hd2.
  assert (0 <= n mod 100 / 10 <= 9) as Hd1.
  { split; [apply Z.div_pos; lia|].
    apply Z.lt_succ_r. apply Z.div_lt_upper_bound; lia. }
  exists (n / 100), (n mod 100 / 10), (n mod 100 mod 10).
  split; [apply Z.div_pos; lia|]. split; [assumption|]. split; [lia|].
  split.
  - cbv zeta. rewrite (decimal_digit _ Hd1), (decimal_digit (n mod 100 mod 10))
      by lia. reflexivity.
  - assert (100 * (n / 100) + 10 * (n mod 100 / 10) + n mod 100 mod 10 = n)
      as ->.
    { pose proof (Z.div_mod n 100 ltac:(lia)).
      pose proof (Z.div_mod (n mod 100) 10 ltac:(lia)). lia. }
    unfold nearestHundredths.
    pose proof (Z.div_mod (200 * num + den) (2 * den) ltac:(lia)) as D.
    pose proof (Z.mod_pos_bound (200 * num + den) (2 * den) ltac:(lia)) as B.
    fold n in D. lia.
Qed.

(** C9.  For a size that is not negative, the text is the number of
    bytes followed by [ B] below 1024; below 1024 * 1024 it is the
    number of hundredths nearest to [size / 1024], written with a
    point and exactly two decimal digits, followed by [ KB]; from there
    on it is the same for [size / (1024 * 1024)] followed by [ MB],
    however large the size is.  1023 gives ["1023 B"], 1536 gives
    ["1.50 KB"], 2097152 gives ["2.00 MB"]. *)
Theorem C9_human_readable_size size :
  0 <= size ->
  ((size < 1024 /\
    humanReadableSize size = (Js.decimal size ++ " B")%string) \/
   (1024 <= size < 1024 * 1024 /\
    exists q d1 d2,
      0 <= q /\ 0 <= d1 <= 9 /\ 0 <= d2 <= 9 /\
      humanReadableSize size =
        (Js.decimal q ++ "." ++
         String (digitChar d1) (String (digitChar d2) " KB"))%string /\
      nearestHundredths (100 * q + 10 * d1 + d2) size 1024) \/
   (1024 * 1024 <= size /\
    exists q d1 d2,
      0 <= q /\ 0 <= d1 <= 9 /\ 0 <= d2 <= 9 /\
      humanReadableSize size =
        (Js.decimal q ++ "." ++
         String (digitChar d1) (String (digitChar d2) " MB"))%string /\
      nearestHundredths (100 * q + 10 * d1 + d2) size (1024 * 1024))) /\
  humanReadableSize 1023 = "1023 B" /\
  humanReadableSize 1536 = "1.50 KB" /\
  humanReadableSize 2097152 = "2.00 MB" /\
  humanReadableSize (5 * 1024 * 1024 * 1024) = "5120.00 MB".
Proof.
  intros H0. split; [|repeat split].
  unfold humanReadableSize.
  destruct (Z.ltb_spec size 1024) as [L1|L1]; [left; now split|right].
  destruct (Z.ltb_spec size (1024 * 1024)) as [L2|L2]; [left|right].
  - split; [lia|].
    destruct (toFixed2_form size 1024 H0 ltac:(lia))
      as (q & d1 & d2 & Hq & H1 & H2 & E & N).
    exists q, d1, d2.
    split; [assumption|]. split; [assumption|]. split; [assumption|].
    split; [|exact N].
    rewrite E. now rewrite append_assoc.
  - split; [lia|].
    destruct (toFixed2_form size (1024 * 1024) H0 ltac:(lia))
      as (q & d1 & d2 & Hq & H1 & H2 & E & N).
    exists q, d1, d2.
    split; [assumption|]. split; [assumption|]. split; [assumption|].
    split; [|exact N].
    rewrite E. now rewrite append_assoc.
Qed.

Lemma C9_human_readable_size_witness :
  0 <= 1536 /\ humanReadableSize 1536 = "1.50 KB".
Proof.
  split; [lia|].
  apply (proj2 (C9_human_readable_size 1536 ltac:(lia))).
Defined.

(** ** Extensions and the allow-list *)

Lemma lowerChar_notDot c :
  Names.notDot c = true -> Names.notDot (Js.lowerChar c) = true.
Proof.
  destruct c as [[] [] [] [] [] [] [] []]; vm_compute; intros H;
    (exact H || reflexivity).
Qed.

Lemma containsDot_lower a :
  forallb Names.notDot a = true ->
  containsDot (Js.toLowerCase (Js.str a)) = false.
Proof.
  intros H. unfold containsDot, Js.toLowerCase.
  rewrite !PathFacts.chars_str.
  induction a as [|c a IH]; [reflexivity|].
  simpl in H. apply andb_true_iff in H as [Hc H].
  cbn [map existsb]. rewrite (IH H), orb_false_r.
  apply lowerChar_notDot in Hc. unfold Names.notDot in Hc.
  rewrite Ascii.eqb_sym. now destruct (Ascii.eqb (Js.lowerChar c) Path.dot).
Qed.

Lemma extensionOf_name directory name :
  Names.valid name = true ->
  extensionOf (Path.join directory name) =
  match Names.splitLastDot (Js.chars name) with
  | Some (_ :: _, after) => Js.toLowerCase (Js.str after)
  | _ => EmptyString
  end.
Proof.
  intros V. rewrite (extensionOf_join _ _ V).
  unfold nameExtension, Names.extnameOfName.
  destruct (Names.splitLastDot (Js.chars name)) as [[[|x b] a]|]; reflexivity.
Qed.

(** Where the program and the words of the specification agree on the
    extension: everywhere but on names whose only dot is the first
    character. *)
Lemma extensionOf_agrees_with_spec directory name :
  Names.valid name = true ->
  match Names.splitLastDot (Js.chars name) with
  | Some ([], _) => extensionOf (Path.join directory name) = EmptyString
  | _ => extensionOf (Path.join directory name) = specExtension name
  end.
Proof.
  intros V. rewrite (extensionOf_name _ _ V). unfold specExtension.
  destruct (Names.splitLastDot (Js.chars name)) as [[[|x b] a]|]; reflexivity.
Qed.

(** C6 at a name whose only dot comes first.  In the words of the
    specification the extension of [.gitignore] is [gitignore], and that
    of [.env] is [env]; both are in the allow-list.  The program
    computes the empty extension for both, and a scan of a directory
    that holds them counts nothing. *)
Theorem C6_dotfile_not_recognised :
  specExtension ".gitignore" = "gitignore" /\
  has CODE_FILE_EXTENSIONS "gitignore" = true /\
  extensionOf (Path.join "proj" ".gitignore") = EmptyString /\
  specExtension ".env" = "env" /\
  has CODE_FILE_EXTENSIONS "env" = true /\
  extensionOf (Path.join "proj" ".env") = EmptyString /\
  analyzeFolder "proj"
    (Resolved [RegularFile ".gitignore" (Resolved "node_modules") (Resolved 12);
               RegularFile ".env" (Resolved "KEY=1") (Resolved 5)])
    emptyStore
  = (Return (mkScanResult 0 0 0 [] []), emptyStore).
Proof. repeat split. Qed.

(** C10, as the program has it.  The extension computed for a directory
    entry never contains a dot, so it is none of the entries of the
    allow-list that contain one.  When something stands before the last
    dot of the name, the extension is the lower-cased text after that
    dot, and the file is counted exactly when that text is in the
    allow-list: so [app.dockerfile] and [app.DOCKERFILE] reach the entry
    [dockerfile] and are counted.  For a name without a dot, or whose
    only dot comes first, the extension is empty and the file is not
    counted: so it is for [Dockerfile] and for [.gitignore]. *)
Theorem C10_dead_entries directory name readFile stat st :
  Names.valid name = true ->
  let ext := extensionOf (Path.join directory name) in
  let st' :=
    snd (analyzeEntry directory (RegularFile name readFile stat) st) in
  containsDot ext = false /\
  has (filter containsDot CODE_FILE_EXTENSIONS) ext = false /\
  match Names.splitLastDot (Js.chars name) with
  | Some (c :: before, after) =>
      Js.chars name = (c :: before) ++ Path.dot :: after /\
      forallb Names.notDot after = true /\
      ext = Js.toLowerCase (Js.str after) /\
      totalFiles st' =
        totalFiles st +
        (if has CODE_FILE_EXTENSIONS (Js.toLowerCase (Js.str after))
         then 1 else 0)
  | _ =>
      ext = EmptyString /\
      analyzeEntry directory (RegularFile name readFile stat) st =
        (Return tt, st)
  end /\
  analyzeEntry "proj" (RegularFile "Dockerfile" readFile stat) st =
    (Return tt, st) /\
  analyzeEntry "proj" (RegularFile ".gitignore" readFile stat) st =
    (Return tt, st) /\
  extensionOf (Path.join "proj" "app.dockerfile") = "dockerfile" /\
  extensionOf (Path.join "proj" "app.DOCKERFILE") = "dockerfile" /\
  totalFiles
    (snd (analyzeEntry "proj" (RegularFile "app.DOCKERFILE" readFile stat) st))
    = totalFiles st + 1.
Proof.
  intros V. cbv zeta.
  assert (containsDot (extensionOf (Path.join directory name)) = false) as D.
  { rewrite (extensionOf_name _ _ V).
    destruct (Names.splitLastDot (Js.chars name)) as [[[|x b] a]|] eqn:E;
      try reflexivity.
    apply PathFacts.splitLastDot_some in E as [_ ND].
    now apply containsDot_lower. }
  split; [assumption|]. split.
  { apply not_true_is_false. intros H. apply has_In in H.
    apply filter_In in H as [_ H]. congruence. }
  split.
  - pose proof (extensionOf_name directory name V) as E.
    destruct (Names.splitLastDot (Js.chars name)) as [[[|x b] a]|] eqn:S.
    + split; [assumption|]. rewrite analyzeEntry_file, E. reflexivity.
    + apply PathFacts.splitLastDot_some in S as [S ND].
      split; [assumption|]. split; [assumption|]. split; [assumption|].
      rewrite analyzeEntry_file, E.
      destruct (has CODE_FILE_EXTENSIONS (Js.toLowerCase (Js.str a)));
        cbn [snd]; [|lia].
      visit_cases (mkVisit (Path.join directory name)
                           (Js.toLowerCase (Js.str a)) readFile stat);
        reflexivity.
    + split; [assumption|]. rewrite analyzeEntry_file, E. reflexivity.
  - split; [reflexivity|]. split; [reflexivity|].
    split; [reflexivity|]. split; [reflexivity|].
    rewrite analyzeEntry_file.
    change (has CODE_FILE_EXTENSIONS
              (extensionOf (Path.join "proj" "app.DOCKERFILE"))) with true.
    cbn [snd].
    visit_cases (mkVisit (Path.join "proj" "app.DOCKERFILE")
                         (extensionOf (Path.join "proj" "app.DOCKERFILE"))
                         readFile stat);
      reflexivity.
Qed.

Lemma C10_dead_entries_witness :
  Names.valid "docker-compose.yml" = true /\
  has (filter containsDot CODE_FILE_EXTENSIONS)
      (extensionOf (Path.join "proj" "docker-compose.yml")) = false /\
  extensionOf (Path.join "proj" "docker-compose.yml") = "yml" /\
  totalFiles
    (snd (analyzeEntry "proj"
            (RegularFile "docker-compose.yml" (Resolved "") (Resolved 0))
            emptyStore)) = 0 + 1.
Proof.
  split; [reflexivity|].
  destruct (C10_dead_entries "proj" "docker-compose.yml"
              (Resolved "") (Resolved 0) emptyStore eq_refl)
    as (_ & H & M & _).
  split; [exact H|].
  cbn [Names.splitLastDot Js.chars] in M.
  destruct M as (_ & _ & E & T).
  split; [exact E|exact T].
Defined.

(** C10 as stated fails: the entry [dockerfile] is reached by the name
    [app.dockerfile], and that file is counted. *)
Lemma C10_counterexample :
  In "dockerfile" CODE_FILE_EXTENSIONS /\
  extensionOf (Path.join "proj" "app.dockerfile") = "dockerfile" /\
  totalFiles
    (snd (analyzeEntry "proj"
            (RegularFile "app.dockerfile" (Resolved "FROM scratch")
                         (Resolved 12))
            emptyStore)) = 1.
Proof.
  split; [apply has_In; reflexivity|]. split; reflexivity.
Qed.

(** ** The keys of the extension counters *)

(** The counters are read and written as properties of a plain object.
    Their keys are extensions of the allow-list; none of these is an
    array index, which [Object.entries] would list first, and none is a
    name inherited from [Object.prototype]. *)
Lemma allowlist_keys_are_ordinary :
  forallb (fun key => negb (isArrayIndex key) &&
                      negb (has objectPrototypeNames key))
          CODE_FILE_EXTENSIONS = true.
Proof. vm_compute. reflexivity. Qed.

Lemma walkAll_Forall (Q : Visit -> Prop) w entries :
  Forall (fun e => Forall Q (fst (w e))) entries ->
  Forall Q (fst (walkAll w entries)).
Proof.
  induction 1 as [|e rest He _ IH]; simpl; [constructor|].
  destruct (w e) as [vs [m|]]; [assumption|].
  destruct (walkAll w rest) as [vs' r]. simpl in *.
  apply Forall_app. now split.
Qed.

Lemma walk_recognised entry :
  forall directory,
    Forall (fun v => has CODE_FILE_EXTENSIONS (v_ext v) = true)
           (fst (walk directory entry)).
Proof.
  induction entry as [name below IH|name m|name readFile stat|name]
    using Dirent_tree_ind; intros directory; cbn [walk entryName].
  - destruct (ignoredName name); [constructor|].
    apply walkAll_Forall. rewrite Forall_forall in IH |- *.
    intros e I. now apply IH.
  - destruct (ignoredName name); constructor.
  - destruct (has CODE_FILE_EXTENSIONS (nameExtension name)) eqn:Acc;
      repeat constructor. assumption.
  - constructor.
Qed.

(** * Further properties of the program *)

(** ** The process as a whole *)

Lemma walkDir_failure directory readdir message :
  snd (walkDir directory readdir) = Some message -> ScanFails message readdir.
Proof.
  destruct readdir as [entries|m]; simpl.
  - intros H. apply walkAll_failure_from in H as (e & I & He).
    exact (walk_reaches e directory entries message I He).
  - now intros [= ->].
Qed.

Lemma walkDir_complete_iff directory readdir :
  snd (walkDir directory readdir) = None <->
  forall message, ~ ScanFails message readdir.
Proof.
  split.
  - intros C message F.
    destruct (scanFails_walkDir _ directory _ F) as (m' & W & _). congruence.
  - intros N. destruct (snd (walkDir directory readdir)) as [m|] eqn:E;
      [|reflexivity].
    elim (N m). now apply walkDir_failure in E.
Qed.

Lemma analyzeFolder_result folderPath readdir st :
  wellFormedListing readdir = true ->
  fst (analyzeFolder folderPath readdir st) =
  match snd (walkDir folderPath readdir) with
  | Some message => Throw message
  | None => Return (resultOf (fst (walkDir folderPath readdir)))
  end.
Proof.
  intros WF. rewrite (analyzeFolder_walk _ _ _ WF). cbv zeta.
  destruct (snd (walkDir folderPath readdir)); [reflexivity|].
  cbn [fst]. unfold resultOf, entries.
  rewrite runVisits_totalLines, runVisits_totalFiles, runVisits_totalSize,
    runVisits_fileLines, runVisits_extensionsCount.
  cbn [initLocals totalLines totalFiles totalSize fileLines extensionsCount
       app Z.add].
  now rewrite fold_countKey_tally.
Qed.

Lemma appendStdout_app a b st :
  appendStdout b (appendStdout a st) = appendStdout (a ++ b) st.
Proof. unfold appendStdout. simpl. now rewrite app_assoc. Qed.

Lemma console_log_bind {A} args (k : unit -> M A) st :
  bind (console_log args) k st = k tt (appendStdout [args] st).
Proof. reflexivity. Qed.

Lemma forOf_console_log {A} (f : A -> string) l st :
  forOf (fun x => console_log [f x]) l st =
  (Return tt, appendStdout (map (fun x => [f x]) l) st).
Proof.
  revert st. induction l as [|x l IH]; intros st.
  - unfold appendStdout. simpl. rewrite app_nil_r. now destruct st.
  - rewrite forOf_cons. cbn [console_log modify].
    change (mkStore _ _ _ _ _ _ _) with (appendStdout [[f x]] st).
    rewrite IH, appendStdout_app. reflexivity.
Qed.

Lemma printReport_lines r st :
  printReport r st = (Return tt, appendStdout (reportLines r) st).
Proof.
  unfold printReport.
  rewrite !console_log_bind.
  unfold bind at 1. rewrite forOf_console_log.
  rewrite !console_log_bind. rewrite forOf_console_log.
  rewrite !appendStdout_app. unfold reportLines.
  rewrite <- ?app_assoc. reflexivity.
Qed.

(** What the process leaves behind, for an argument that is given. *)
Lemma main_run folderPath readdir :
  folderPath <> EmptyString ->
  wellFormedListing readdir = true ->
  main (Some folderPath) readdir =
  let visits := fst (walkDir folderPath readdir) in
  match snd (walkDir folderPath readdir) with
  | Some message =>
      mkProcess [] (flat_map warningOf visits ++ [["Error:"; message]]) 1
  | None =>
      mkProcess (reportLines (resultOf visits)) (flat_map warningOf visits) 0
  end.
Proof.
  intros NE WF. unfold main. destruct folderPath as [|c p]; [contradiction|].
  set (folderPath := String c p).
  pose proof (analyzeFolder_result folderPath readdir emptyStore WF) as R.
  pose proof (analyzeFolder_walk folderPath readdir emptyStore WF) as E.
  cbv zeta in E |- *.
  unfold mainBody, tryCatch. unfold bind at 1. rewrite E.
  destruct (snd (walkDir folderPath readdir)) as [m|].
  - unfold console_error, console_warn, modify, ret, bind.
    rewrite runVisits_stdout, runVisits_stderr. reflexivity.
  - rewrite E in R. cbn [fst] in R.
    apply (f_equal (fun o => match o with
                             | Return x => x
                             | Throw _ => resultOf []
                             end)) in R.
    rewrite R.
    unfold bind. rewrite printReport_lines. unfold ret.
    cbn [appendStdout setFileLines stdout stderr].
    rewrite runVisits_stdout, runVisits_stderr. reflexivity.
Qed.

(** X1.  The process ends with code 0 exactly when the argument is
    given and the traversal meets no directory that cannot be listed;
    in every other case it ends with code 1.  Files that cannot be read
    never change the code. *)
Theorem X1_exit_code argv2 readdir :
  wellFormedListing readdir = true ->
  (exitCode (main argv2 readdir) = 0 <->
   argumentGiven argv2 = true /\ forall message, ~ ScanFails message readdir) /\
  (exitCode (main argv2 readdir) = 0 \/ exitCode (main argv2 readdir) = 1).
Proof.
  intros WF.
  destruct argv2 as [[|c p]|]; cbn [argumentGiven].
  1, 3: split; [split; [discriminate|intros [? _]; discriminate]|now right].
  assert (String c p <> EmptyString) as NE by discriminate.
  rewrite (main_run _ _ NE WF). cbv zeta.
  rewrite <- (walkDir_complete_iff (String c p) readdir).
  destruct (snd (walkDir (String c p) readdir)); cbn [exitCode].
  - split; [split; [discriminate|intros [_ ?]; discriminate]|now right].
  - split; [split; [now split|reflexivity]|now left].
Qed.

Lemma X1_exit_code_witness :
  wellFormedListing unreadableTree = true /\
  (exitCode (main (Some "proj") unreadableTree) = 0 \/
   exitCode (main (Some "proj") unreadableTree) = 1).
Proof.
  split; [reflexivity|].
  apply (X1_exit_code (Some "proj") unreadableTree). reflexivity.
Defined.

(** X2.  When the argument is given and every directory met can be
    listed, the standard output holds the eleven fixed lines of the
    report, one line for each entry of [topFiles] and one for each
    entry of [topExtensions], in the order of these lists: between 11
    and 31 lines.  The error stream holds one warning for each
    recognised file that could not be read in full, in the order met,
    and nothing else. *)
Theorem X2_report folderPath readdir :
  folderPath <> EmptyString ->
  wellFormedListing readdir = true ->
  (forall message, ~ ScanFails message readdir) ->
  exists r,
    fst (analyzeFolder folderPath readdir emptyStore) = Return r /\
    main (Some folderPath) readdir =
      mkProcess (reportLines r)
                (flat_map warningOf (fst (walkDir folderPath readdir))) 0 /\
    List.length (reportLines r) =
      (11 + List.length (topFiles r) + List.length (topExtensions r))%nat /\
    (11 <= List.length (reportLines r) <= 31)%nat.
Proof.
  intros NE WF N. apply (walkDir_complete_iff folderPath) in N.
  exists (resultOf (fst (walkDir folderPath readdir))).
  rewrite (analyzeFolder_result _ _ _ WF), (main_run _ _ NE WF). cbv zeta.
  rewrite N. split; [reflexivity|]. split; [reflexivity|].
  assert (List.length (reportLines (resultOf (fst (walkDir folderPath readdir))))
          = (11 + List.length (topFiles (resultOf (fst (walkDir folderPath readdir))))
             + List.length (topExtensions (resultOf (fst (walkDir folderPath readdir)))))%nat)
    as L.
  { unfold reportLines. rewrite !length_app, !length_map. simpl. lia. }
  split; [assumption|]. rewrite L.
  unfold resultOf. cbn [topFiles topExtensions]. unfold top10.
  rewrite !length_firstn. lia.
Qed.

Lemma X2_report_witness :
  exists r,
    fst (analyzeFolder "proj" unreadableTree emptyStore) = Return r /\
    main (Some "proj") unreadableTree =
      mkProcess (reportLines r)
                (flat_map warningOf (fst (walkDir "proj" unreadableTree))) 0 /\
    List.length (reportLines r) =
      (11 + List.length (topFiles r) + List.length (topExtensions r))%nat /\
    (11 <= List.length (reportLines r) <= 31)%nat.
Proof.
  apply (X2_report "proj" unreadableTree).
  - discriminate.
  - reflexivity.
  - intros message F. inversion F as [name es I G|name below es I G R].
    + destruct I as [I|[]]. discriminate.
    + destruct I as [I|[]]. discriminate.
Defined.

(** ** What the top-ten lists hold *)

Section TopFacts.
Context {A : Type} (key : A -> Z).

Let cmp (a b : A) : Z := key b - key a.

Lemma descending_split (front back : list A) :
  descendingBy key (front ++ back) ->
  forall t x, In t front -> In x back -> key x <= key t.
Proof.
  unfold descendingBy. induction front as [|y front IH]; intros S t x It Ix.
  - destruct It.
  - inversion S as [|? ? S' Hy]; subst. destruct It as [<-|It].
    + rewrite Forall_forall in Hy. apply Hy. apply in_or_app. now right.
    + now apply IH.
Qed.

Lemma top10_largest l :
  Permutation (top10 (sort cmp l) ++ skipn 10 (sort cmp l)) l /\
  forall t x,
    In t (top10 (sort cmp l)) -> In x (skipn 10 (sort cmp l)) ->
    key x <= key t.
Proof.
  unfold top10. split.
  - rewrite firstn_skipn. apply sort_perm.
  - apply descending_split. rewrite firstn_skipn. apply sort_descending.
Qed.

End TopFacts.

(** X3.  The two lists hold the largest: [topFiles] holds ten of the
    candidate records, or all of them when there are fewer, and no
    record left out has more lines than any record kept; kept and left
    out together are the candidate records.  The same holds for
    [topExtensions] and the extension counters by count. *)
Theorem X3_top_lists_hold_the_largest folderPath readdir st r st' :
  wellFormedListing readdir = true ->
  analyzeFolder folderPath readdir st = (Return r, st') ->
  exists scanned otherFiles otherExtensions,
    analyzeDir folderPath readdir (initLocals st) = (Return tt, scanned) /\
    List.length (topFiles r) = Nat.min 10 (List.length (fileLines scanned)) /\
    Permutation (topFiles r ++ otherFiles) (fileLines scanned) /\
    (forall t x, In t (topFiles r) -> In x otherFiles -> lines x <= lines t) /\
    List.length (topExtensions r) =
      Nat.min 10 (List.length (extensionsCount scanned)) /\
    Permutation (topExtensions r ++ otherExtensions)
                (extensionsCount scanned) /\
    (forall t x,
       In t (topExtensions r) -> In x otherExtensions -> snd x <= snd t).
Proof.
  intros WF H.
  destruct (analyzeFolder_scanned _ _ _ _ _ WF H)
    as (scanned & Hs & _ & _ & _ & Ht & He).
  exists scanned,
    (skipn 10 (sort byLinesDesc (fileLines scanned))),
    (skipn 10 (sort byCountDesc (extensionsCount scanned))).
  split; [assumption|]. rewrite Ht, He.
  destruct (top10_largest lines (fileLines scanned)) as [P1 L1].
  destruct (top10_largest snd (extensionsCount scanned)) as [P2 L2].
  split; [unfold byLinesDesc; now rewrite top10_length, (sort_length lines)|].
  split; [assumption|]. split; [assumption|].
  split; [unfold byCountDesc; now rewrite top10_length, (sort_length snd)|].
  split; assumption.
Qed.

Lemma X3_top_lists_hold_the_largest_witness :
  wellFormedListing busyTree = true /\
  analyzeFolder "proj" busyTree emptyStore = (Return busyResult, busyStore) /\
  map lines (topFiles busyResult) = [6; 5; 4; 3; 3; 3; 3; 2; 2; 2] /\
  map snd (topExtensions busyResult) = [3; 2; 1; 1; 1; 1; 1; 1; 1; 1] /\
  exists scanned otherFiles otherExtensions,
    analyzeDir "proj" busyTree (initLocals emptyStore) = (Return tt, scanned) /\
    List.length (topFiles busyResult) =
      Nat.min 10 (List.length (fileLines scanned)) /\
    Permutation (topFiles busyResult ++ otherFiles) (fileLines scanned) /\
    (forall t x, In t (topFiles busyResult) -> In x otherFiles ->
                 lines x <= lines t) /\
    List.length (topExtensions busyResult) =
      Nat.min 10 (List.length (extensionsCount scanned)) /\
    Permutation (topExtensions busyResult ++ otherExtensions)
                (extensionsCount scanned) /\
    (forall t x, In t (topExtensions busyResult) -> In x otherExtensions ->
                 snd x <= snd t).
Proof.
  split; [vm_compute; reflexivity|]. split; [vm_compute; reflexivity|].
  split; [reflexivity|]. split; [reflexivity|].
  apply (X3_top_lists_hold_the_largest "proj" busyTree emptyStore
           busyResult busyStore).
  - vm_compute. reflexivity.
  - vm_compute. reflexivity.
Defined.

(** ** The extension counters as a whole *)

Lemma sum_countKey o key :
  sumZ (map snd (countKey o key)) = sumZ (map snd o) + 1.
Proof.
  unfold countKey. induction o as [|[k v] o IH]; simpl; [reflexivity|].
  destruct (String.eqb k key); simpl.
  - destruct (Z.eqb_spec v 0); lia.
  - rewrite IH. lia.
Qed.

Lemma sum_fold_countKey exts o :
  sumZ (map snd (fold_left countKey exts o)) =
  sumZ (map snd o) + Z.of_nat (List.length exts).
Proof.
  revert o. induction exts as [|e exts IH]; intros o; simpl fold_left.
  - simpl. lia.
  - rewrite IH, sum_countKey. cbn [List.length]. lia.
Qed.

Lemma tally_sum exts :
  sumZ (map snd (tally exts)) = Z.of_nat (List.length exts).
Proof. rewrite <- fold_countKey_tally, sum_fold_countKey. reflexivity. Qed.

Lemma tally_keys exts : map fst (tally exts) = distinct exts.
Proof.
  unfold tally. rewrite map_map. simpl. apply map_id.
Qed.

Lemma occurrences_positive x l : In x l -> 1 <= occurrences x l.
Proof.
  unfold occurrences. induction l as [|y l IH]; [intros []|].
  intros [->|I]; simpl.
  - rewrite String.eqb_refl. simpl. lia.
  - destruct (String.eqb x y); simpl; [lia|]. now apply IH.
Qed.

Lemma tally_entries exts e :
  In e (tally exts) -> In (fst e) exts /\ 1 <= snd e.
Proof.
  unfold tally. rewrite in_map_iff. intros (k & <- & I).
  apply (proj1 (distinct_In _ _)) in I. cbn [fst snd].
  split; [assumption|]. now apply occurrences_positive.
Qed.

Lemma walkDir_recognised directory readdir :
  Forall (fun v => has CODE_FILE_EXTENSIONS (v_ext v) = true)
         (fst (walkDir directory readdir)).
Proof.
  destruct readdir as [entries|m]; simpl; [|constructor].
  apply walkAll_Forall. apply Forall_forall. intros e _.
  apply walk_recognised.
Qed.

Lemma length_filter_split {B} (f : B -> bool) l :
  List.length l =
  (List.length (filter f l) + List.length (filter (fun x => negb (f x)) l))%nat.
Proof.
  induction l as [|x l IH]; [reflexivity|]. simpl.
  destruct (f x); simpl; lia.
Qed.

(** X4.  After a scan the object of extension counters has one property
    for each extension counted, no key twice; every key is an extension
    of the allow-list, every count is at least 1, and the counts add up
    to the number of recognised files whose content and size were both
    obtained, which is at most [totalFiles]. *)
Theorem X4_extension_counters folderPath readdir st scanned :
  wellFormedListing readdir = true ->
  analyzeDir folderPath readdir (initLocals st) = (Return tt, scanned) ->
  NoDup (map fst (extensionsCount scanned)) /\
  Forall (fun e => has CODE_FILE_EXTENSIONS (fst e) = true /\ 1 <= snd e)
         (extensionsCount scanned) /\
  sumZ (map snd (extensionsCount scanned)) =
    Z.of_nat (List.length
                (filter complete (fst (walkDir folderPath readdir)))) /\
  sumZ (map snd (extensionsCount scanned)) <= totalFiles scanned.
Proof.
  intros WF H.
  destruct (analyzeDir_scanned _ _ _ _ WF H) as (_ & _ & Hn & _ & _ & Hc & _).
  cbv zeta in *. rewrite Hc, Hn, tally_sum, tally_keys.
  unfold countedExtensions. rewrite length_map.
  split; [apply distinct_NoDup|]. split; [|split; [reflexivity|]].
  - apply Forall_forall. intros e I. apply tally_entries in I as [I P].
    split; [|assumption].
    apply in_map_iff in I as (v & <- & Iv). apply filter_In in Iv as [Iv _].
    pose proof (walkDir_recognised folderPath readdir) as R.
    rewrite Forall_forall in R. now apply R.
  - rewrite (length_filter_split complete (fst (walkDir folderPath readdir))).
    lia.
Qed.

Lemma X4_extension_counters_witness :
  wellFormedListing busyTree = true /\
  analyzeDir "proj" busyTree (initLocals emptyStore)
    = (Return tt, busyScanned) /\
  extensionsCount busyScanned =
    [("js", 3); ("ts", 1); ("py", 1); ("rb", 1); ("go", 1); ("rs", 1);
     ("c", 1); ("md", 2); ("css", 1); ("html", 1); ("json", 1); ("yml", 1);
     ("sh", 1)] /\
  NoDup (map fst (extensionsCount busyScanned)) /\
  Forall (fun e => has CODE_FILE_EXTENSIONS (fst e) = true /\ 1 <= snd e)
         (extensionsCount busyScanned) /\
  sumZ (map snd (extensionsCount busyScanned)) =
    Z.of_nat (List.length (filter complete (fst (walkDir "proj" busyTree)))) /\
  sumZ (map snd (extensionsCount busyScanned)) <= totalFiles busyScanned.
Proof.
  split; [vm_compute; reflexivity|]. split; [vm_compute; reflexivity|].
  split; [reflexivity|].
  apply (X4_extension_counters "proj" busyTree emptyStore busyScanned).
  - vm_compute. reflexivity.
  - vm_compute. reflexivity.
Defined.

(** ** Warnings and totals *)





Lemma lineCount_positive content : 1 <= lineCount content.
Proof. rewrite lineCount_newlines. unfold countNewlines. lia. Qed.

Lemma recordsOf_lines vs : Forall (fun fl => 1 <= lines fl) (recordsOf vs).
Proof.
  unfold recordsOf. induction vs as [|v vs IH]; [constructor|].
  cbn [flat_map]. apply Forall_app. split; [|assumption].
  unfold recordOf. destruct (v_readFile v); repeat constructor.
  apply lineCount_positive.
Qed.

Lemma sumZ_lower (l : list Z) :
  Forall (fun x => 1 <= x) l -> Z.of_nat (List.length l) <= sumZ l.
Proof. induction 1; simpl in *; lia. Qed.

Lemma sumZ_nonneg (l : list Z) : Forall (fun x => 0 <= x) l -> 0 <= sumZ l.
Proof. induction 1; simpl in *; lia. Qed.

(** X6.  Every file whose content is read counts at least one line, an
    empty file too, so [totalLines] is at least the number of candidate
    records and every entry of [topFiles] has at least one line;
    [totalFiles] is not negative; and when no [stat] answers a negative
    size, [totalSize] is not negative. *)
Theorem X6_totals_lower_bounds folderPath readdir st r st' :
  wellFormedListing readdir = true ->
  analyzeFolder folderPath readdir st = (Return r, st') ->
  exists scanned,
    analyzeDir folderPath readdir (initLocals st) = (Return tt, scanned) /\
    Forall (fun fl => 1 <= lines fl) (fileLines scanned) /\
    Forall (fun fl => 1 <= lines fl) (topFiles r) /\
    Z.of_nat (List.length (fileLines scanned)) <= r_totalLines r /\
    0 <= r_totalFiles r /\
    (sizesNonNegative (fst (walkDir folderPath readdir)) = true ->
     0 <= r_totalSize r) /\
    lineCount EmptyString = 1.
Proof.
  intros WF H.
  destruct (analyzeFolder_scanned _ _ _ _ _ WF H)
    as (scanned & Hs & Htl & Htf & Hts & Ht & _).
  exists scanned. split; [assumption|].
  destruct (analyzeDir_scanned _ _ _ _ WF Hs)
    as (_ & Hl & Hn & Hz & Hr & _).
  cbv zeta in *.
  assert (Forall (fun fl => 1 <= lines fl) (fileLines scanned)) as F
    by (rewrite Hr; apply recordsOf_lines).
  split; [assumption|]. split; [|split; [|split; [|split; [|reflexivity]]]].
  - rewrite Ht. apply Forall_forall. intros fl I.
    rewrite Forall_forall in F. apply F.
    apply (Permutation_in _ (sort_perm lines (fileLines scanned))).
    unfold top10 in I. rewrite <- (firstn_skipn 10 (sort _ _)).
    apply in_or_app. now left.
  - rewrite Htl, Hl, <- Hr, <- (length_map lines). apply sumZ_lower.
    now apply Forall_map.
  - rewrite Htf, Hn. lia.
  - intros SZ. rewrite Hts, Hz. apply sumZ_nonneg. apply Forall_map.
    unfold sizesNonNegative in SZ. rewrite forallb_forall in SZ.
    apply Forall_forall. intros v I. apply Z.leb_le. now apply SZ.
Qed.

Lemma X6_totals_lower_bounds_witness :
  wellFormedListing busyTree = true /\
  analyzeFolder "proj" busyTree emptyStore = (Return busyResult, busyStore) /\
  sizesNonNegative (fst (walkDir "proj" busyTree)) = true /\
  0 <= r_totalSize busyResult /\
  exists scanned,
    analyzeDir "proj" busyTree (initLocals emptyStore) = (Return tt, scanned) /\
    Forall (fun fl => 1 <= lines fl) (fileLines scanned) /\
    Forall (fun fl => 1 <= lines fl) (topFiles busyResult) /\
    Z.of_nat (List.length (fileLines scanned)) <= r_totalLines busyResult /\
    0 <= r_totalFiles busyResult.
Proof.
  split; [vm_compute; reflexivity|]. split; [vm_compute; reflexivity|].
  split; [vm_compute; reflexivity|].
  destruct (X6_totals_lower_bounds "proj" busyTree emptyStore
              busyResult busyStore)
    as (scanned & Hs & F1 & F2 & L & N & S & _).
  - vm_compute. reflexivity.
  - vm_compute. reflexivity.
  - split; [apply S; vm_compute; reflexivity|].
    exists scanned. repeat split; assumption.
Defined.

(** ** Listings put together, listings reordered *)

Lemma walkAll_app w a b :
  walkAll w (a ++ b) =
  match walkAll w a with
  | (visits, Some message) => (visits, Some message)
  | (visits, None) =>
      let '(visits', failure) := walkAll w b in (visits ++ visits', failure)
  end.
Proof.
  induction a as [|e a IH]; simpl.
  - now destruct (walkAll w b).
  - destruct (w e) as [vs [m|]]; [reflexivity|]. rewrite IH.
    destruct (walkAll w a) as [va [m|]]; [reflexivity|].
    destruct (walkAll w b) as [vb r]. now rewrite app_assoc.
Qed.

Lemma countOf_tally exts key : countOf (tally exts) key = occurrences key exts.
Proof.
  unfold countOf. rewrite <- fold_countKey_tally, value_fold. reflexivity.
Qed.

Lemma occurrences_app key a b :
  occurrences key (a ++ b) = occurrences key a + occurrences key b.
Proof. unfold occurrences. rewrite filter_app, length_app. lia. Qed.

Lemma countedExtensions_app a b :
  countedExtensions (a ++ b) = countedExtensions a ++ countedExtensions b.
Proof. unfold countedExtensions. now rewrite filter_app, map_app. Qed.

Lemma recordsOf_app a b : recordsOf (a ++ b) = recordsOf a ++ recordsOf b.
Proof. apply flat_map_app. Qed.

(** X7.  Scanning a listing made of two listings one after the other
    gives the sums: when the scan of each part completes, so does the
    scan of the whole, and its three totals and each extension count
    are the sums of those of the parts; its candidate records are those
    of the first part followed by those of the second. *)
Theorem X7_totals_are_additive directory first second st s1 s2 :
  forallb wellFormed first = true ->
  forallb wellFormed second = true ->
  analyzeDir directory (Resolved first) (initLocals st) = (Return tt, s1) ->
  analyzeDir directory (Resolved second) (initLocals st) = (Return tt, s2) ->
  exists whole,
    analyzeDir directory (Resolved (first ++ second)) (initLocals st)
      = (Return tt, whole) /\
    totalLines whole = totalLines s1 + totalLines s2 /\
    totalFiles whole = totalFiles s1 + totalFiles s2 /\
    totalSize whole = totalSize s1 + totalSize s2 /\
    fileLines whole = fileLines s1 ++ fileLines s2 /\
    forall key,
      countOf (extensionsCount whole) key =
      countOf (extensionsCount s1) key + countOf (extensionsCount s2) key.
Proof.
  intros W1 W2 H1 H2.
  assert (wellFormedListing (Resolved (first ++ second)) = true) as W
    by (simpl; rewrite forallb_app, W1, W2; reflexivity).
  destruct (analyzeDir_scanned directory (Resolved first) _ _ W1 H1)
    as (C1 & L1 & N1 & Z1 & R1 & E1 & _).
  destruct (analyzeDir_scanned directory (Resolved second) _ _ W2 H2)
    as (C2 & L2 & N2 & Z2 & R2 & E2 & _).
  cbv zeta in *. cbn [walkDir] in *.
  pose proof (analyzeDir_walk directory _ W (initLocals st)) as E.
  cbn [walkDir] in E. rewrite walkAll_app in E.
  destruct (walkAll (walk directory) first) as [v1 f1].
  destruct (walkAll (walk directory) second) as [v2 f2].
  cbn [fst snd] in *. subst f1 f2. cbn [fst snd outcomeOf] in E.
  eexists. split; [exact E|].
  rewrite runVisits_totalLines, runVisits_totalFiles, runVisits_totalSize,
    runVisits_fileLines, runVisits_extensionsCount.
  cbn [initLocals totalLines totalFiles totalSize fileLines extensionsCount
       app Z.add].
  rewrite L1, L2, N1, N2, Z1, Z2, R1, R2, E1, E2, fold_countKey_tally.
  rewrite recordsOf_app, !map_app, !sumZ_app, length_app.
  repeat split; try lia.
  intros key. rewrite !countOf_tally, countedExtensions_app.
  apply occurrences_app.
Qed.

Lemma X7_totals_are_additive_witness :
  exists whole,
    analyzeDir "proj"
      (Resolved ([RegularFile "a.js" (Resolved "x") (Resolved 1)] ++
                 [RegularFile "b.md" (Resolved ("y" ++ nl ++ "z")%string)
                              (Resolved 3)]))
      (initLocals emptyStore) = (Return tt, whole) /\
    totalLines whole = 1 + 2 /\
    totalFiles whole = 1 + 1 /\
    totalSize whole = 1 + 3.
Proof.
  destruct (X7_totals_are_additive "proj"
              [RegularFile "a.js" (Resolved "x") (Resolved 1)]
              [RegularFile "b.md" (Resolved ("y" ++ nl ++ "z")%string)
                           (Resolved 3)]
              emptyStore
              (mkStore 1 1 1 [mkFileLine "proj/a.js" 1] [("js", 1)] [] [])
              (mkStore 2 1 3 [mkFileLine "proj/b.md" 2] [("md", 1)] [] [])
              eq_refl eq_refl eq_refl eq_refl)
    as (whole & H & L & F & S & _).
  exists whole. repeat split; assumption.
Defined.

Lemma walkAll_all w entries :
  (forall e, In e entries -> snd (w e) = None) ->
  walkAll w entries = (flat_map (fun e => fst (w e)) entries, None).
Proof.
  induction entries as [|e rest IH]; intros H; [reflexivity|].
  simpl. pose proof (H e (or_introl eq_refl)) as He.
  destruct (w e) as [vs f]. simpl in He. subst f.
  rewrite IH by (intros e' I; apply H; now right). reflexivity.
Qed.

Lemma sumZ_perm l l' : Permutation l l' -> sumZ l = sumZ l'.
Proof. induction 1; simpl in *; lia. Qed.

Lemma filter_perm {B} (f : B -> bool) l l' :
  Permutation l l' -> Permutation (filter f l) (filter f l').
Proof.
  induction 1 as [|x l l' _ IH|x y l|l l' l'' _ IH1 _ IH2]; simpl.
  - constructor.
  - destruct (f x); [now constructor|assumption].
  - destruct (f x), (f y); try reflexivity. apply perm_swap.
  - now transitivity (filter f l').
Qed.

Lemma occurrences_perm key l l' :
  Permutation l l' -> occurrences key l = occurrences key l'.
Proof.
  intros P. unfold occurrences. f_equal.
  apply Permutation_length. now apply filter_perm.
Qed.

(** X8.  The order in which a directory is listed does not change the
    totals: if the scan of a listing completes, the scan of the same
    entries in any other order completes with the same [totalLines],
    [totalFiles] and [totalSize] and the same count for every
    extension, and collects the same candidate records in another
    order. *)
Theorem X8_listing_order directory listed relisted st s :
  Permutation listed relisted ->
  forallb wellFormed listed = true ->
  analyzeDir directory (Resolved listed) (initLocals st) = (Return tt, s) ->
  exists s',
    analyzeDir directory (Resolved relisted) (initLocals st)
      = (Return tt, s') /\
    totalLines s' = totalLines s /\
    totalFiles s' = totalFiles s /\
    totalSize s' = totalSize s /\
    Permutation (fileLines s) (fileLines s') /\
    forall key,
      countOf (extensionsCount s') key = countOf (extensionsCount s) key.
Proof.
  intros P W H.
  assert (forallb wellFormed relisted = true) as W'.
  { rewrite forallb_forall in W |- *. intros e I. apply W.
    apply (Permutation_in _ (Permutation_sym P) I). }
  destruct (analyzeDir_scanned directory (Resolved listed) _ _ W H)
    as (C & L & N & Z & R & E & _).
  cbv zeta in *. cbn [walkDir] in *.
  assert (forall e, In e listed -> snd (walk directory e) = None) as A
    by (intros e I; apply (walkAll_complete _ _ C e I)).
  assert (forall e, In e relisted -> snd (walk directory e) = None) as A'
    by (intros e I; apply A; apply (Permutation_in _ (Permutation_sym P) I)).
  rewrite (walkAll_all _ _ A) in *. cbn [fst] in *.
  pose proof (analyzeDir_walk directory (Resolved relisted) W' (initLocals st))
    as E'.
  cbn [walkDir] in E'. rewrite (walkAll_all _ _ A') in E'.
  cbn [fst snd outcomeOf] in E'.
  eexists. split; [exact E'|].
  set (f := fun e => fst (walk directory e)) in *.
  assert (Permutation (flat_map f listed) (flat_map f relisted)) as PV
    by now apply Permutation_flat_map.
  rewrite runVisits_totalLines, runVisits_totalFiles, runVisits_totalSize,
    runVisits_fileLines, runVisits_extensionsCount.
  cbn [initLocals totalLines totalFiles totalSize fileLines extensionsCount
       app Z.add].
  rewrite L, N, Z, R, E, fold_countKey_tally.
  assert (Permutation (recordsOf (flat_map f listed))
                      (recordsOf (flat_map f relisted))) as PR
    by (unfold recordsOf; now apply Permutation_flat_map).
  repeat split.
  - apply sumZ_perm, Permutation_map. now symmetry.
  - f_equal. apply Permutation_length. now symmetry.
  - apply sumZ_perm, Permutation_map. now symmetry.
  - assumption.
  - intros key. rewrite !countOf_tally. apply occurrences_perm.
    unfold countedExtensions. apply Permutation_map, filter_perm.
    now symmetry.
Qed.

Lemma X8_listing_order_witness :
  exists s',
    analyzeDir "proj"
      (Resolved [RegularFile "b.md" (Resolved "y") (Resolved 3);
                 RegularFile "a.js" (Resolved "x") (Resolved 1)])
      (initLocals emptyStore) = (Return tt, s') /\
    totalLines s' = 2 /\ totalFiles s' = 2 /\ totalSize s' = 4.
Proof.
  destruct (X8_listing_order "proj"
              [RegularFile "a.js" (Resolved "x") (Resolved 1);
               RegularFile "b.md" (Resolved "y") (Resolved 3)]
              [RegularFile "b.md" (Resolved "y") (Resolved 3);
               RegularFile "a.js" (Resolved "x") (Resolved 1)]
              emptyStore
              (mkStore 2 2 4
                 [mkFileLine "proj/a.js" 1; mkFileLine "proj/b.md" 1]
                 [("js", 1); ("md", 1)] [] [])
              (perm_swap _ _ _) eq_refl eq_refl)
    as (s' & H & L & F & S & _).
  exists s'. repeat split; assumption.
Defined.

(** ** Classification by name *)

Lemma lowerChar_idempotent c : Js.lowerChar (Js.lowerChar c) = Js.lowerChar c.
Proof. destruct c as [[] [] [] [] [] [] [] []]; reflexivity. Qed.

Lemma lowerChar_dot c :
  Ascii.eqb (Js.lowerChar c) Path.dot = Ascii.eqb c Path.dot.
Proof. destruct c as [[] [] [] [] [] [] [] []]; reflexivity. Qed.

Lemma lowerChar_slash c :
  Ascii.eqb (Js.lowerChar c) Path.slash = Ascii.eqb c Path.slash.
Proof. destruct c as [[] [] [] [] [] [] [] []]; reflexivity. Qed.

Lemma chars_toLowerCase s :
  Js.chars (Js.toLowerCase s) = map Js.lowerChar (Js.chars s).
Proof. unfold Js.toLowerCase. apply PathFacts.chars_str. Qed.

Lemma splitLastDot_lower n :
  Names.splitLastDot (map Js.lowerChar n) =
  match Names.splitLastDot n with
  | Some (before, after) =>
      Some (map Js.lowerChar before, map Js.lowerChar after)
  | None => None
  end.
Proof.
  induction n as [|c n IH]; [reflexivity|].
  cbn [map Names.splitLastDot]. rewrite IH, lowerChar_dot.
  destruct (Names.splitLastDot n) as [[b a]|]; [reflexivity|].
  now destruct (Ascii.eqb c Path.dot).
Qed.

Lemma validChars_lower n :
  Names.validChars n = true -> Names.validChars (map Js.lowerChar n) = true.
Proof.
  intros V. apply PathFacts.valid_inv in V as (N0 & NS & N1 & N2).
  unfold Names.validChars.
  destruct n as [|c n]; [contradiction|]. cbn [map].
  change (Js.lowerChar c :: map Js.lowerChar n)
    with (map Js.lowerChar (c :: n)).
  apply andb_true_iff. split; [apply andb_true_iff; split|].
  - rewrite forallb_forall in NS |- *. intros x I.
    apply in_map_iff in I as (y & <- & I). specialize (NS y I).
    unfold Names.notSlash in *. now rewrite lowerChar_slash.
  - destruct (PathFacts.list_eqb_spec (map Js.lowerChar (c :: n)) [Path.dot])
      as [E|]; [|reflexivity].
    destruct n; [|discriminate]. injection E as E.
    apply Ascii.eqb_eq in E. rewrite lowerChar_dot in E.
    apply Ascii.eqb_eq in E. subst. now elim N1.
  - destruct (PathFacts.list_eqb_spec (map Js.lowerChar (c :: n))
                                      [Path.dot; Path.dot])
      as [E|]; [|reflexivity].
    destruct n as [|c' [|? ?]]; try discriminate. injection E as E E'.
    apply Ascii.eqb_eq in E, E'. rewrite lowerChar_dot in E, E'.
    apply Ascii.eqb_eq in E, E'. subst. now elim N2.
Qed.

Lemma toLowerCase_str_idempotent l :
  Js.toLowerCase (Js.str (map Js.lowerChar l)) = Js.str (map Js.lowerChar l).
Proof.
  unfold Js.toLowerCase. rewrite PathFacts.chars_str, map_map.
  f_equal. apply map_ext. apply lowerChar_idempotent.
Qed.

Lemma nameExtension_lower name :
  nameExtension (Js.toLowerCase name) = nameExtension name /\
  Js.toLowerCase (nameExtension name) = nameExtension name.
Proof.
  unfold nameExtension, Names.extnameOfName.
  rewrite chars_toLowerCase, splitLastDot_lower.
  destruct (Names.splitLastDot (Js.chars name)) as [[[|x b] a]|];
    cbn [map]; try (split; reflexivity).
  change (Js.slice1 (Js.str (Path.dot :: map Js.lowerChar a)))
    with (Js.str (map Js.lowerChar a)).
  change (Js.slice1 (Js.str (Path.dot :: a))) with (Js.str a).
  rewrite toLowerCase_str_idempotent.
  unfold Js.toLowerCase at 1 2. rewrite !PathFacts.chars_str.
  split; [reflexivity|]. apply toLowerCase_str_idempotent.
Qed.

(** X9.  For names made of code units below 256, where lower-casing
    works character by character, whether a file is recognised depends
    on its name alone and not on its case: the extension computed for
    an entry is the same in every directory, is the same for every
    valid name that differs from it only in case, and is itself in
    lower case.  So [Main.JS], [MAIN.Js] and [main.js] all have the
    extension [js] and share one counter. *)
Theorem X9_extension_by_name name directory directory' :
  Names.valid name = true ->
  Names.valid (Js.toLowerCase name) = true /\
  extensionOf (Path.join directory name) =
    extensionOf (Path.join directory' name) /\
  extensionOf (Path.join directory name) =
    extensionOf (Path.join directory' (Js.toLowerCase name)) /\
  Js.toLowerCase (extensionOf (Path.join directory name)) =
    extensionOf (Path.join directory name) /\
  (forall other,
     Names.valid other = true ->
     Js.toLowerCase other = Js.toLowerCase name ->
     extensionOf (Path.join directory' other) =
       extensionOf (Path.join directory name)) /\
  Js.toLowerCase "Main.JS" = "main.js" /\
  extensionOf (Path.join directory "Main.JS") = "js" /\
  extensionOf (Path.join directory "MAIN.Js") = "js" /\
  extensionOf (Path.join directory' "main.js") = "js" /\
  extensionsCount
    (snd (analyzeDir "proj"
            (Resolved [RegularFile "Main.JS" (Resolved "x") (Resolved 1);
                       RegularFile "main.js" (Resolved "x") (Resolved 1)])
            emptyStore)) = [("js", 2)].
Proof.
  intros V.
  assert (Names.valid (Js.toLowerCase name) = true) as V'.
  { unfold Names.valid in *. rewrite chars_toLowerCase.
    now apply validChars_lower. }
  rewrite !(extensionOf_join _ name V), (extensionOf_join _ _ V').
  destruct (nameExtension_lower name) as [E1 E2].
  split; [assumption|]. split; [reflexivity|]. split; [now symmetry|].
  split; [assumption|]. split.
  - intros other Vo Eo. rewrite (extensionOf_join _ _ Vo).
    destruct (nameExtension_lower other) as [O1 _].
    now rewrite <- O1, Eo, E1.
  - split; [reflexivity|].
    rewrite !(extensionOf_join directory), (extensionOf_join directory')
      by reflexivity.
    repeat split.
Qed.

Lemma X9_extension_by_name_witness :
  Names.valid "Main.JS" = true /\
  Names.valid "MAIN.Js" = true /\
  Js.toLowerCase "MAIN.Js" = Js.toLowerCase "Main.JS" /\
  extensionOf (Path.join "proj/src" "MAIN.Js") =
    extensionOf (Path.join "proj" "Main.JS") /\
  extensionOf (Path.join "proj" "Main.JS") = "js".
Proof.
  split; [reflexivity|]. split; [reflexivity|]. split; [reflexivity|].
  destruct (X9_extension_by_name "Main.JS" "proj" "proj/src" eq_refl)
    as (_ & _ & _ & _ & Other & _ & J & _).
  split; [apply Other; reflexivity|exact J].
Defined.

(** ** The figure before the unit *)

(** X10.  In the [KB] and [MB] forms the figure printed is never below
    [1.00].  In the [KB] form it is never above [1024.00], and it is
    [1024.00] exactly for the sizes from 1048571 to 1048575, which are
    rounded up to the next unit without changing the unit. *)
Theorem X10_size_figure size :
  1024 <= size ->
  exists q d1 d2 unit,
    humanReadableSize size =
      (Js.decimal q ++ "." ++
       String (digitChar d1) (String (digitChar d2) unit))%string /\
    0 <= d1 <= 9 /\ 0 <= d2 <= 9 /\
    1 <= q /\
    (size < 1024 * 1024 ->
       unit = " KB" /\ q <= 1024 /\
       (q = 1024 <-> 1048571 <= size) /\
       (q = 1024 -> d1 = 0 /\ d2 = 0)) /\
    (1024 * 1024 <= size -> unit = " MB").
Proof.
  intros H. unfold humanReadableSize.
  destruct (Z.ltb_spec size 1024) as [L1|_]; [lia|].
  destruct (Z.ltb_spec size (1024 * 1024)) as [L2|L2].
  - destruct (toFixed2_form size 1024 ltac:(lia) ltac:(lia))
      as (q & d1 & d2 & Hq & H1 & H2 & E & N).
    exists q, d1, d2, " KB". unfold nearestHundredths in N.
    split; [rewrite E, append_assoc; reflexivity|].
    split; [assumption|]. split; [assumption|]. split; [lia|].
    split; [|lia]. intros _. split; [reflexivity|].
    split; [lia|]. split; [lia|lia].
  - destruct (toFixed2_form size (1024 * 1024) ltac:(lia) ltac:(lia))
      as (q & d1 & d2 & Hq & H1 & H2 & E & N).
    exists q, d1, d2, " MB". unfold nearestHundredths in N.
    split; [rewrite E, append_assoc; reflexivity|].
    split; [assumption|]. split; [assumption|]. split; [lia|].
    split; [lia|]. intros _. reflexivity.
Qed.

Lemma X10_size_figure_witness :
  1024 <= 1048575 /\
  exists q d1 d2 unit,
    humanReadableSize 1048575 =
      (Js.decimal q ++ "." ++
       String (digitChar d1) (String (digitChar d2) unit))%string /\
    0 <= d1 <= 9 /\ 0 <= d2 <= 9 /\
    1 <= q /\
    (1048575 < 1024 * 1024 ->
       unit = " KB" /\ q <= 1024 /\
       (q = 1024 <-> 1048571 <= 1048575) /\
       (q = 1024 -> d1 = 0 /\ d2 = 0)) /\
    (1024 * 1024 <= 1048575 -> unit = " MB").
Proof.
  split; [lia|]. apply (X10_size_figure 1048575). lia.
Defined.

(** ** One scan after another *)

(** X11.  A scan starts from fresh counters: what [analyzeFolder]
    answers, a result or an error, is the same whatever earlier scans
    left in the store.  It writes nothing to the standard output, and
    to the error stream it only adds its warnings, the same ones every
    time, whether it ends with a result or with an error. *)
Theorem X11_scan_starts_afresh folderPath readdir :
  wellFormedListing readdir = true ->
  exists warnings,
    forall st,
      fst (analyzeFolder folderPath readdir st) =
        fst (analyzeFolder folderPath readdir emptyStore) /\
      stdout (snd (analyzeFolder folderPath readdir st)) = stdout st /\
      stderr (snd (analyzeFolder folderPath readdir st)) =
        stderr st ++ warnings.
Proof.
  intros WF. exists (flat_map warningOf (fst (walkDir folderPath readdir))).
  intros st. rewrite !(analyzeFolder_result _ _ _ WF).
  split; [reflexivity|].
  rewrite (analyzeFolder_walk _ _ _ WF). cbv zeta.
  destruct (snd (walkDir folderPath readdir));
    cbn [snd setFileLines stdout stderr];
    rewrite runVisits_stdout, runVisits_stderr; split; reflexivity.
Qed.

Lemma X11_scan_starts_afresh_witness :
  exists warnings,
    forall st,
      fst (analyzeFolder "proj" unreadableTree st) =
        fst (analyzeFolder "proj" unreadableTree emptyStore) /\
      stdout (snd (analyzeFolder "proj" unreadableTree st)) = stdout st /\
      stderr (snd (analyzeFolder "proj" unreadableTree st)) =
        stderr st ++ warnings.
Proof.
  apply (X11_scan_starts_afresh "proj" unreadableTree). reflexivity.
Defined.

(** ** The first directory that cannot be listed *)




(** ** The files that are reported *)

Lemma walk_paths entry :
  wellFormed entry = true ->
  forall directory,
    Forall (fun v => extensionOf (v_path v) = v_ext v)
           (fst (walk directory entry)).
Proof.
  induction entry as [name below IH|name m|name readFile stat|name]
    using Dirent_tree_ind; intros WF directory; cbn [walk entryName].
  - simpl in WF. apply andb_true_iff in WF as [_ WF].
    destruct (ignoredName name); [constructor|].
    apply walkAll_Forall. rewrite forallb_forall in WF.
    rewrite Forall_forall in IH |- *. intros e I. apply IH; auto.
  - destruct (ignoredName name); constructor.
  - simpl in WF. apply andb_true_iff in WF as [V _].
    destruct (has CODE_FILE_EXTENSIONS (nameExtension name));
      repeat constructor.
    cbn [v_path v_ext]. now apply extensionOf_join.
  - constructor.
Qed.

Lemma walkDir_paths directory readdir :
  wellFormedListing readdir = true ->
  Forall (fun v => has CODE_FILE_EXTENSIONS (extensionOf (v_path v)) = true)
         (fst (walkDir directory readdir)).
Proof.
  intros WF.
  pose proof (walkDir_recognised directory readdir) as R.
  assert (Forall (fun v => extensionOf (v_path v) = v_ext v)
                 (fst (walkDir directory readdir))) as P.
  { destruct readdir as [entries|m]; simpl; [|constructor].
    apply walkAll_Forall. simpl in WF. rewrite forallb_forall in WF.
    apply Forall_forall. intros e I. apply walk_paths. now apply WF. }
  rewrite Forall_forall in *. intros v I. rewrite (P v I). now apply R.
Qed.

Lemma recordsOf_files vs fl :
  In fl (recordsOf vs) -> exists v, In v vs /\ file fl = v_path v.
Proof.
  unfold recordsOf. rewrite in_flat_map. intros (v & I & R).
  exists v. split; [assumption|]. unfold recordOf in R.
  destruct (v_readFile v); [|destruct R]. destruct R as [<-|[]]. reflexivity.
Qed.

Lemma warnings_paths (Q : string -> Prop) vs :
  (forall v, In v vs -> Q (v_path v)) ->
  exists warned,
    flat_map warningOf vs =
      map (fun pm => [("Warning: Could not read file " ++ fst pm)%string;
                      snd pm]) warned /\
    Forall (fun pm => Q (fst pm)) warned.
Proof.
  induction vs as [|v vs IH]; intros H.
  - exists []. split; [reflexivity|constructor].
  - destruct IH as (warned & Ew & Fw); [intros x I; apply H; now right|].
    cbn [flat_map]. rewrite Ew.
    pose proof (H v (or_introl eq_refl)) as Hv.
    unfold warningOf.
    destruct (v_readFile v) as [c|m]; [destruct (v_stat v) as [z|m]|].
    + exists warned. split; [reflexivity|assumption].
    + exists ((v_path v, m) :: warned). split; [reflexivity|].
      now constructor.
    + exists ((v_path v, m) :: warned). split; [reflexivity|].
      now constructor.
Qed.

(** X13.  Every file that is reported has a recognised extension: the
    path of each candidate record, and so of each entry of [topFiles],
    has an extension of the allow-list, and the path in each warning
    has one too. *)
Theorem X13_reported_files_are_recognised folderPath readdir st r st' :
  wellFormedListing readdir = true ->
  analyzeFolder folderPath readdir st = (Return r, st') ->
  Forall (fun fl => has CODE_FILE_EXTENSIONS (extensionOf (file fl)) = true)
         (topFiles r) /\
  exists warned,
    stderr st' =
      stderr st ++
      map (fun pm => [("Warning: Could not read file " ++ fst pm)%string;
                      snd pm]) warned /\
    Forall (fun pm => has CODE_FILE_EXTENSIONS (extensionOf (fst pm)) = true)
           warned.
Proof.
  intros WF H.
  pose proof (walkDir_paths folderPath readdir WF) as P.
  rewrite Forall_forall in P.
  pose proof (analyzeFolder_walk folderPath readdir st WF) as E.
  cbv zeta in E. rewrite H in E.
  destruct (snd (walkDir folderPath readdir)); [discriminate|].
  injection E as Er Es. split.
  - rewrite Er. cbn [topFiles]. rewrite runVisits_fileLines. cbn [initLocals fileLines app].
    apply Forall_forall. intros fl I.
    assert (In fl (recordsOf (fst (walkDir folderPath readdir)))) as I'.
    { apply (Permutation_in _ (sort_perm lines _)).
      unfold top10 in I. rewrite <- (firstn_skipn 10 (sort _ _)).
      apply in_or_app. now left. }
    apply recordsOf_files in I' as (v & Iv & ->). now apply P.
  - rewrite Es. cbn [setFileLines stderr]. rewrite runVisits_stderr.
    cbn [initLocals stderr].
    destruct (warnings_paths
                (fun path => has CODE_FILE_EXTENSIONS (extensionOf path) = true)
                (fst (walkDir folderPath readdir)) P)
      as (warned & Ew & Fw).
    exists warned. rewrite Ew. split; [reflexivity|assumption].
Qed.

Lemma X13_reported_files_are_recognised_witness :
  wellFormedListing busyTree = true /\
  analyzeFolder "proj" busyTree emptyStore = (Return busyResult, busyStore) /\
  map file (topFiles busyResult) =
    ["proj/src/deep.sh"; "proj/c.py"; "proj/h.md"; "proj/a.js"; "proj/d.rb";
     "proj/f.rs"; "proj/m.js"; "proj/e.go"; "proj/i.css"; "proj/k.json"] /\
  stderr busyStore =
    [["Warning: Could not read file proj/locked.ts"; "EACCES"];
     ["Warning: Could not read file proj/gone.py"; "ENOENT"]] /\
  Forall (fun fl => has CODE_FILE_EXTENSIONS (extensionOf (file fl)) = true)
         (topFiles busyResult) /\
  exists warned,
    stderr busyStore =
      stderr emptyStore ++
      map (fun pm => [("Warning: Could not read file " ++ fst pm)%string;
                      snd pm]) warned /\
    Forall (fun pm => has CODE_FILE_EXTENSIONS (extensionOf (fst pm)) = true)
           warned.
Proof.
  split; [vm_compute; reflexivity|]. split; [vm_compute; reflexivity|].
  split; [reflexivity|]. split; [reflexivity|].
  apply (X13_reported_files_are_recognised "proj" busyTree emptyStore
           busyResult busyStore).
  - vm_compute. reflexivity.
  - vm_compute. reflexivity.
Defined.
